(** * vscode-river: the diagnostics pipeline of [src/extension.js]

    A shallow embedding of the extension's core: the stderr parser
    [parseAlloyErrors], the formatter invoker [runAlloyFmt], the background
    validator [validate] with its debounce timers ([scheduleValidate]) and
    the explicit format action ([provideDocumentFormattingEdits]).

    JavaScript strings are sequences of UTF-16 code units ([list N]);
    JavaScript numbers that hold integers are [Number]s, with the rounding
    of IEEE doubles written out. *)

From Stdlib Require Import ZArith NArith Lia Ascii String DecimalString.
From stdpp Require Import gmap list strings.

Local Open Scope Z_scope.

(* ===================================================================== *)
(** ** JavaScript strings *)
(* ===================================================================== *)

Abbreviation JSString := (list N).

(** An ASCII literal as a JavaScript string. *)
Definition u16 (s : string) : JSString :=
  map N_of_ascii (list_ascii_of_string s).

(** [\d] *)
Definition is_digit (c : N) : bool :=
  ((48 <=? c) && (c <=? 57))%N.

(** [\s], which is also the set of characters removed by [trim()]:
    TAB LF VT FF CR SP NBSP, the Unicode space separators, LS, PS and
    the byte order mark. *)
Definition is_space (c : N) : bool :=
  ((c =? 9) || (c =? 10) || (c =? 11) || (c =? 12) || (c =? 13)
   || (c =? 32) || (c =? 160) || (c =? 5760)
   || ((8192 <=? c) && (c <=? 8202))
   || (c =? 8232) || (c =? 8233) || (c =? 8239) || (c =? 8287)
   || (c =? 12288) || (c =? 65279))%N.

(** [[^<]] *)
Definition is_not_lt (c : N) : bool := negb (c =? 60)%N.

Definition SP : N := 32%N.

Fixpoint take_while (p : N -> bool) (s : JSString) : JSString :=
  match s with
  | c :: s' => if p c then c :: take_while p s' else []
  | [] => []
  end.

Fixpoint drop_while (p : N -> bool) (s : JSString) : JSString :=
  match s with
  | c :: s' => if p c then drop_while p s' else s
  | [] => []
  end.

(** [s.trim()] *)
Definition trim (s : JSString) : JSString :=
  rev (drop_while is_space (rev (drop_while is_space s))).

(** [s.replace(/\s+/g, ' ')]: every maximal run of white space becomes one
    space.  [in_run] tells that the previous character belonged to the run
    being replaced. *)
Fixpoint replace_ws_runs (in_run : bool) (s : JSString) : JSString :=
  match s with
  | [] => []
  | c :: s' =>
      if is_space c
      then (if in_run then replace_ws_runs true s'
            else SP :: replace_ws_runs true s')
      else c :: replace_ws_runs false s'
  end.

(* ===================================================================== *)
(** ** JavaScript numbers holding integers *)
(* ===================================================================== *)

Inductive Number :=
| NaN
| Fin (z : Z)
| PosInf
| NegInf.

(** Round a non-negative integer to the nearest double, ties to even
    (53 significant bits). *)
Definition round_mag (n : Z) : Z :=
  let k := Z.log2 n in
  if k <? 53 then n
  else
    let e := k - 52 in
    let q := Z.shiftr n e in
    let r := n mod 2 ^ e in
    let half := 2 ^ (e - 1) in
    let q' := if r <? half then q
              else if half <? r then q + 1
              else if Z.even q then q else q + 1 in
    Z.shiftl q' e.

(** From this magnitude on, rounding overflows to an infinity. *)
Definition overflow_bound : Z := 2 ^ 1024 - 2 ^ 970.

Definition toNumber (z : Z) : Number :=
  if z <? 0
  then (if overflow_bound <=? - z then NegInf else Fin (- round_mag (- z)))
  else (if overflow_bound <=? z then PosInf else Fin (round_mag z)).

Definition digit_val (c : N) : Z := Z.of_N c - 48.

Definition decimal_value (ds : JSString) : Z :=
  fold_left (fun acc c => 10 * acc + digit_val c) ds 0.

(** [parseInt(s, 10)]: leading white space, an optional sign, then the
    longest run of decimal digits; [NaN] when there is no digit. *)
Definition parseInt (s : JSString) : Number :=
  let s1 := drop_while is_space s in
  let '(neg, s2) :=
    match s1 with
    | c :: r =>
        if (c =? 45)%N then (true, r)
        else if (c =? 43)%N then (false, r)
        else (false, s1)
    | [] => (false, s1)
    end in
  match take_while is_digit s2 with
  | [] => NaN
  | ds => toNumber (if neg then - decimal_value ds else decimal_value ds)
  end.

(** [x - 1] *)
Definition minus_one (x : Number) : Number :=
  match x with
  | Fin z => toNumber (z - 1)
  | other => other
  end.

(** [Math.max(a, b)] and [Math.min(a, b)] *)
Definition Math_max (a b : Number) : Number :=
  match a, b with
  | NaN, _ | _, NaN => NaN
  | PosInf, _ | _, PosInf => PosInf
  | NegInf, x | x, NegInf => x
  | Fin x, Fin y => Fin (Z.max x y)
  end.

Definition Math_min (a b : Number) : Number :=
  match a, b with
  | NaN, _ | _, NaN => NaN
  | NegInf, _ | _, NegInf => NegInf
  | PosInf, x | x, PosInf => x
  | Fin x, Fin y => Fin (Z.min x y)
  end.

(** [0 <= x] as JavaScript evaluates it ([NaN] compares false). *)
Definition nonneg (x : Number) : Prop :=
  match x with
  | Fin z => 0 <= z
  | PosInf => True
  | NaN | NegInf => False
  end.

(* ===================================================================== *)
(** ** Regular expressions: the fragment the extension uses *)
(* ===================================================================== *)

Inductive cclass := Digit | Space | NotLt.

Definition in_class (k : cclass) (c : N) : bool :=
  match k with
  | Digit => is_digit c
  | Space => is_space c
  | NotLt => is_not_lt c
  end.

(** A pattern is a sequence of nodes; repetition is greedy and applies to
    a character class: [Many k 0] is [k*], [Many k 1] is [k+], and
    [Capture k m] is the same inside a capturing group. *)
Inductive node :=
| Lit (cs : JSString)
| Many (k : cclass) (min : nat)
| Capture (k : cclass) (min : nat).

Fixpoint is_prefix (p s : JSString) : bool :=
  match p, s with
  | [], _ => true
  | a :: p', b :: s' => (a =? b)%N && is_prefix p' s'
  | _ :: _, [] => false
  end.

(** Length of the longest prefix of [s] made of characters of class [k]. *)
Fixpoint span (k : cclass) (s : JSString) : nat :=
  match s with
  | c :: s' => if in_class k c then S (span k s') else 0%nat
  | [] => 0%nat
  end.

(** Backtracking over a greedy repetition: try [hi] repetitions first, then
    fewer, never less than [lo]. *)
Fixpoint greedy {A} (f : nat -> option A) (lo hi : nat) : option A :=
  if (hi <? lo)%nat then None
  else match f hi with
       | Some r => Some r
       | None => match hi with
                 | O => None
                 | S h => greedy f lo h
                 end
       end.

(** Match the pattern at the start of [s]: the captured groups, in order,
    and the number of characters consumed. *)
Fixpoint match_at (re : list node) (s : JSString)
  : option (list JSString * nat) :=
  match re with
  | [] => Some ([], 0%nat)
  | Lit cs :: re' =>
      if is_prefix cs s
      then match match_at re' (drop (length cs) s) with
           | Some (caps, n) => Some (caps, (length cs + n)%nat)
           | None => None
           end
      else None
  | Many k lo :: re' =>
      greedy (fun n => match match_at re' (drop n s) with
                       | Some (caps, m) => Some (caps, (n + m)%nat)
                       | None => None
                       end) lo (span k s)
  | Capture k lo :: re' =>
      greedy (fun n => match match_at re' (drop n s) with
                       | Some (caps, m) => Some (take n s :: caps, (n + m)%nat)
                       | None => None
                       end) lo (span k s)
  end.

(** Leftmost match in [s]: its offset, its groups and its length. *)
Fixpoint search (re : list node) (s : JSString)
  : option (nat * list JSString * nat) :=
  match match_at re s with
  | Some (caps, n) => Some (0%nat, caps, n)
  | None =>
      match s with
      | [] => None
      | _ :: s' =>
          match search re s' with
          | Some (i, caps, n) => Some (S i, caps, n)
          | None => None
          end
      end
  end.

(** [re.exec(s)] for a global pattern whose [lastIndex] is [lastIndex]:
    the groups of the leftmost match at or after [lastIndex], and the new
    [lastIndex] (the end of the match); [None] is [null]. *)
Definition exec (re : list node) (s : JSString) (lastIndex : nat)
  : option (list JSString * nat) :=
  if (length s <? lastIndex)%nat then None
  else match search re (drop lastIndex s) with
       | Some (i, caps, n) => Some (caps, (lastIndex + i + n)%nat)
       | None => None
       end.

(** [re.test(s)] for a pattern without the global flag. *)
Definition test (re : list node) (s : JSString) : bool :=
  match search re s with
  | Some _ => true
  | None => false
  end.

(* ===================================================================== *)
(** ** The diagnostic parser *)
(* ===================================================================== *)

Record PositionedError := {
  line : Number;
  col : Number;
  message : JSString
}.

Definition stdin_marker : JSString := u16 "<stdin>:".
Definition colon : JSString := u16 ":".

(** [/<stdin>:(\d+):(\d+):\s*([^<]+)/g] *)
Definition error_re : list node :=
  [Lit stdin_marker; Capture Digit 1; Lit colon; Capture Digit 1; Lit colon;
   Many Space 0; Capture NotLt 1].

(** The body of the [while] loop: one record from the groups [m[1]],
    [m[2]] and [m[3]]. *)
Definition error_of_match (m : list JSString) : PositionedError :=
  let g i := nth i m [] in
  {| line := Math_max (Fin 0) (minus_one (parseInt (g 0%nat)));
     col := Math_max (Fin 0) (minus_one (parseInt (g 1%nat)));
     message := trim (g 2%nat) |}.

(** [while ((m = re.exec(normalized))) { ... errors.push(...) }] *)
Fixpoint exec_loop (fuel : nat) (normalized : JSString) (lastIndex : nat)
    (errors : list PositionedError) : list PositionedError :=
  match fuel with
  | O => errors
  | S fuel' =>
      match exec error_re normalized lastIndex with
      | None => errors
      | Some (m, lastIndex') =>
          exec_loop fuel' normalized lastIndex' (errors ++ [error_of_match m])
      end
  end.

Definition parseAlloyErrors (stderr : JSString) : list PositionedError :=
  match stderr with
  | [] => []
  | _ =>
      let normalized := trim (replace_ws_runs false stderr) in
      exec_loop (S (length normalized)) normalized 0 []
  end.

(** [/<stdin>:\d+:\d+:/], the test of the format action. *)
Definition position_re : list node :=
  [Lit stdin_marker; Many Digit 1; Lit colon; Many Digit 1; Lit colon].

(* ===================================================================== *)
(** ** The editor's data: documents, ranges, diagnostics, edits *)
(* ===================================================================== *)

Abbreviation Uri := (list N) (only parsing).

(** [uri.toString()] *)
Definition uri_toString (u : Uri) : JSString := u.

(** A document is its text; the editor splits it into lines at LF, CR LF
    and CR ([after_cr] tells that the previous character was a CR, whose
    line is already closed). *)
Record TextDocument := {
  uri : Uri;
  languageId : JSString;
  getText : JSString
}.

Fixpoint split_lines (after_cr : bool) (cur : JSString) (s : JSString)
  : list JSString :=
  match s with
  | [] => [rev cur]
  | c :: s' =>
      if (c =? 10)%N then
        (if after_cr then split_lines false cur s'
         else rev cur :: split_lines false [] s')
      else if (c =? 13)%N then rev cur :: split_lines true [] s'
      else split_lines false (c :: cur) s'
  end.

Definition doc_lines (d : TextDocument) : list JSString :=
  split_lines false [] (getText d).

Definition lineCount (d : TextDocument) : Z :=
  Z.of_nat (length (doc_lines d)).

Record Position := {
  pos_line : Number;
  character : Number
}.

Definition num_ltb (a b : Number) : bool :=
  match a, b with
  | NaN, _ | _, NaN => false
  | Fin x, Fin y => x <? y
  | NegInf, (Fin _ | PosInf) => true
  | Fin _, PosInf => true
  | _, _ => false
  end.

(** [a.isBefore(b)] *)
Definition isBefore (a b : Position) : bool :=
  if num_ltb (pos_line a) (pos_line b) then true
  else if num_ltb (pos_line b) (pos_line a) then false
  else num_ltb (character a) (character b).

Record Range := {
  range_start : Position;
  range_end : Position
}.

(** [new vscode.Range(start, end)]: the editor orders the two ends. *)
Definition new_Range (a b : Position) : Range :=
  if isBefore a b
  then {| range_start := a; range_end := b |}
  else {| range_start := b; range_end := a |}.

(** [document.lineAt(n).range], or [None] when [lineAt] throws: [n] must
    be an integer with [0 <= n < lineCount]. *)
Definition lineAt (d : TextDocument) (n : Number) : option Range :=
  match n with
  | Fin z =>
      if (0 <=? z) && (z <? lineCount d)
      then match doc_lines d !! Z.to_nat z with
           | Some l =>
               Some {| range_start := {| pos_line := Fin z; character := Fin 0 |};
                       range_end := {| pos_line := Fin z;
                                       character := Fin (Z.of_nat (length l)) |} |}
           | None => None
           end
      else None
  | _ => None
  end.

Inductive DiagnosticSeverity := SevError | SevWarning | SevInformation | SevHint.

Record Diagnostic := {
  range : Range;
  diag_message : JSString;
  severity : DiagnosticSeverity;
  source : JSString
}.

(** [vscode.TextEdit.replace(range, newText)] *)
Record TextEdit := {
  edit_range : Range;
  newText : JSString
}.

(** The callback of [parsed.map(...)] in [validate]. *)
Definition diagnostic_of (document : TextDocument) (e : PositionedError)
  : Diagnostic :=
  let start := {| pos_line := line e; character := col e |} in
  let end_ :=
    match lineAt document (Math_min (line e) (Fin (lineCount document - 1))) with
    | Some r => range_end r
    | None => start
    end in
  {| range := new_Range start end_;
     diag_message := message e;
     severity := SevError;
     source := u16 "alloy fmt" |}.

(* ===================================================================== *)
(** ** Child processes and promises *)
(* ===================================================================== *)

(** What a spawned process reports to its listeners.  The exit code of
    ['close'] is [None] when the process was ended by a signal ([null]). *)
Inductive ChildEvent :=
| StdoutData (chunk : JSString)
| StderrData (chunk : JSString)
| ErrorEv (err_message : JSString)
| CloseEv (code : option Z).

Inductive Promise (A : Type) :=
| Pending
| Resolved (v : A)
| Rejected (err_message : JSString).
Arguments Pending {A}.
Arguments Resolved {A} v.
Arguments Rejected {A} err_message.

(** A promise settles once: later calls of [resolve] and [reject] are
    ignored. *)
Definition resolve {A} (v : A) (p : Promise A) : Promise A :=
  match p with Pending => Resolved v | _ => p end.

Definition reject {A} (m : JSString) (p : Promise A) : Promise A :=
  match p with Pending => Rejected m | _ => p end.

(** A number in a template literal; [null] prints as its name. *)
Definition show_code (code : option Z) : JSString :=
  match code with
  | Some z => u16 (NilEmpty.string_of_int (Z.to_int z))
  | None => u16 "null"
  end.

(** One call of [runAlloyFmt]: the variables its listeners close over and
    the promise it returned. *)
Record FmtCall := {
  f_stdout : JSString;
  f_stderr : JSString;
  f_promise : Promise JSString
}.

(** The synchronous part of [runAlloyFmt]: the process is spawned, the
    listeners are installed, the text is written; [write_error] is the
    message of the exception thrown by the write, if any. *)
Definition runAlloyFmt (write_error : option JSString) : FmtCall :=
  {| f_stdout := [];
     f_stderr := [];
     f_promise :=
       match write_error with
       | None => Pending
       | Some m => reject (u16 "Failed to write to formatter: " ++ m) Pending
       end |}.

(** The listeners of [runAlloyFmt]. *)
Definition runAlloyFmt_on (ev : ChildEvent) (c : FmtCall) : FmtCall :=
  match ev with
  | StdoutData chunk =>
      {| f_stdout := f_stdout c ++ chunk; f_stderr := f_stderr c;
         f_promise := f_promise c |}
  | StderrData chunk =>
      {| f_stdout := f_stdout c; f_stderr := f_stderr c ++ chunk;
         f_promise := f_promise c |}
  | ErrorEv m =>
      {| f_stdout := f_stdout c; f_stderr := f_stderr c;
         f_promise := reject (u16 "Failed to start formatter: " ++ m) (f_promise c) |}
  | CloseEv code =>
      {| f_stdout := f_stdout c; f_stderr := f_stderr c;
         f_promise :=
           match code with
           | Some 0 => resolve (f_stdout c) (f_promise c)
           | _ =>
               let msg := match f_stderr c with
                          | [] => u16 "alloy fmt exited with code " ++ show_code code
                          | _ => f_stderr c
                          end in
               reject msg (f_promise c)
           end |}
  end.

(** A whole run of the child process. *)
Definition runAlloyFmt_run (write_error : option JSString) (evs : list ChildEvent)
  : FmtCall :=
  fold_left (fun c ev => runAlloyFmt_on ev c) evs (runAlloyFmt write_error).

(* ===================================================================== *)
(** ** The explicit format action *)
(* ===================================================================== *)

Definition hint : JSString :=
  u16 "Ensure `alloy` is installed and on PATH, or set `river.alloyPath`.".

(** The [.then] callback of [provideDocumentFormattingEdits]; the right
    summand is the message of an exception thrown by [lineAt]. *)
Definition on_formatted (document : TextDocument) (original formatted : JSString)
  : list TextEdit + JSString :=
  if decide (formatted = original) then inl []
  else
    match lineAt document (Fin 0), lineAt document (Fin (lineCount document - 1)) with
    | Some firstLine, Some lastLine =>
        let fullRange := new_Range (range_start firstLine) (range_end lastLine) in
        inl [ {| edit_range := fullRange; newText := formatted |} ]
    | _, _ => inr (u16 "Illegal value for `line`")
    end.

(** The [.catch] callback: the edits it returns and the error messages it
    shows. *)
Definition on_failed (msg : JSString) : list TextEdit * list JSString :=
  let hasPositions := test position_re msg in
  if negb hasPositions
  then ([], [u16 "River format failed: " ++ msg ++ u16 " " ++ hint])
  else ([], []).

(** The chain [runAlloyFmt(...).then(...).catch(...)] once the promise is
    settled: the edits the provider resolves to and the popups shown. *)
Definition format_outcome (document : TextDocument) (original : JSString)
    (p : Promise JSString) : option (list TextEdit * list JSString) :=
  match p with
  | Pending => None
  | Resolved formatted =>
      match on_formatted document original formatted with
      | inl edits => Some (edits, [])
      | inr thrown => Some (on_failed thrown)
      end
  | Rejected m => Some (on_failed m)
  end.

(* ===================================================================== *)
(** ** The extension's state and its event handlers *)
(* ===================================================================== *)

(** A timeout of the runtime: the variables the callback of [setTimeout]
    in [scheduleValidate] closes over. *)
Record Timeout := {
  t_key : JSString;
  t_document : Uri;
  t_delay : Z
}.

(** A process spawned by [validate]: the document its listeners close
    over and the [stderr] they accumulate. *)
Record Validation := {
  v_document : Uri;
  v_stderr : JSString
}.

(** A pending call of [provideDocumentFormattingEdits]. *)
Record Formatting := {
  p_document : Uri;
  p_original : JSString;
  p_call : FmtCall;
  p_edits : option (list TextEdit)
}.

Record State := {
  docs : gmap Uri TextDocument;          (* the editor's document objects *)
  collection : gmap Uri (list Diagnostic); (* the diagnostic collection *)
  timers : gmap JSString positive;       (* [const timers = new Map()] *)
  timeouts : gmap positive Timeout;      (* timeouts armed in the runtime *)
  next_timeout : positive;
  children : gmap positive Validation;   (* validations in flight *)
  formats : gmap positive Formatting;    (* format actions *)
  next_pid : positive;
  popups : list JSString                 (* [showErrorMessage] calls *)
}.

Definition with_docs (f : gmap Uri TextDocument -> gmap Uri TextDocument)
    (st : State) : State :=
  {| docs := f (docs st); collection := collection st; timers := timers st;
     timeouts := timeouts st; next_timeout := next_timeout st;
     children := children st; formats := formats st; next_pid := next_pid st;
     popups := popups st |}.

Definition with_collection
    (f : gmap Uri (list Diagnostic) -> gmap Uri (list Diagnostic))
    (st : State) : State :=
  {| docs := docs st; collection := f (collection st); timers := timers st;
     timeouts := timeouts st; next_timeout := next_timeout st;
     children := children st; formats := formats st; next_pid := next_pid st;
     popups := popups st |}.

Definition with_timers (f : gmap JSString positive -> gmap JSString positive)
    (st : State) : State :=
  {| docs := docs st; collection := collection st; timers := f (timers st);
     timeouts := timeouts st; next_timeout := next_timeout st;
     children := children st; formats := formats st; next_pid := next_pid st;
     popups := popups st |}.

Definition with_timeouts (f : gmap positive Timeout -> gmap positive Timeout)
    (st : State) : State :=
  {| docs := docs st; collection := collection st; timers := timers st;
     timeouts := f (timeouts st); next_timeout := next_timeout st;
     children := children st; formats := formats st; next_pid := next_pid st;
     popups := popups st |}.

Definition with_children (f : gmap positive Validation -> gmap positive Validation)
    (st : State) : State :=
  {| docs := docs st; collection := collection st; timers := timers st;
     timeouts := timeouts st; next_timeout := next_timeout st;
     children := f (children st); formats := formats st; next_pid := next_pid st;
     popups := popups st |}.

Definition with_formats (f : gmap positive Formatting -> gmap positive Formatting)
    (st : State) : State :=
  {| docs := docs st; collection := collection st; timers := timers st;
     timeouts := timeouts st; next_timeout := next_timeout st;
     children := children st; formats := f (formats st); next_pid := next_pid st;
     popups := popups st |}.

Definition with_popups (f : list JSString -> list JSString) (st : State) : State :=
  {| docs := docs st; collection := collection st; timers := timers st;
     timeouts := timeouts st; next_timeout := next_timeout st;
     children := children st; formats := formats st; next_pid := next_pid st;
     popups := f (popups st) |}.

(** [setTimeout(callback, delay)]: arm a timeout and return its handle. *)
Definition setTimeout (cb : Timeout) (st : State) : positive * State :=
  let h := next_timeout st in
  (h, {| docs := docs st; collection := collection st; timers := timers st;
         timeouts := <[h := cb]> (timeouts st); next_timeout := Pos.succ h;
         children := children st; formats := formats st; next_pid := next_pid st;
         popups := popups st |}).

(** [clearTimeout(h)] *)
Definition clearTimeout (h : positive) (st : State) : State :=
  with_timeouts (delete h) st.

(** A fresh process identifier for [cp.spawn]. *)
Definition spawn (st : State) : positive * State :=
  let pid := next_pid st in
  (pid, {| docs := docs st; collection := collection st; timers := timers st;
           timeouts := timeouts st; next_timeout := next_timeout st;
           children := children st; formats := formats st;
           next_pid := Pos.succ pid; popups := popups st |}).

Definition river : JSString := u16 "river".

(** [validate(document)].  [write_ok] tells whether writing the text to
    the process succeeds; when it throws, the [catch] clears the
    diagnostics.  The listeners stay installed either way. *)
Definition validate (write_ok : bool) (document : Uri) (st : State) : State :=
  match docs st !! document with
  | None => st
  | Some d =>
      if decide (languageId d = river) then
        let '(pid, st1) := spawn st in
        let st2 :=
          with_children
            (insert pid {| v_document := document; v_stderr := [] |}) st1 in
        if write_ok then st2
        else with_collection (insert document []) st2
      else st
  end.

(** The ['close'] listener of [validate]. *)
Definition validate_on_close (document : Uri) (stderr : JSString)
    (code : option Z) (st : State) : State :=
  match code with
  | Some 0 => with_collection (insert document []) st
  | _ =>
      let parsed := parseAlloyErrors stderr in
      match parsed with
      | [] => with_collection (insert document []) st
      | _ =>
          match docs st !! document with
          | Some d =>
              let diags := map (diagnostic_of d) parsed in
              with_collection (insert document diags) st
          | None => st
          end
      end
  end.

(** The listeners [validate] installs on its process: ['data'] on
    [stderr] and ['close'].  It installs none for [stdout] nor for
    ['error']: those events reach no code of the validator. *)
Definition validate_on (pid : positive) (v : Validation) (ev : ChildEvent)
    (st : State) : State :=
  match ev with
  | StderrData c =>
      with_children
        (insert pid {| v_document := v_document v; v_stderr := v_stderr v ++ c |}) st
  | CloseEv code =>
      validate_on_close (v_document v) (v_stderr v) code
        (with_children (delete pid) st)
  | StdoutData _ => st
  | ErrorEv _ => st
  end.

(** [scheduleValidate(document, delay)] *)
Definition scheduleValidate (document : Uri) (delay : Z) (st : State) : State :=
  let key := uri_toString document in
  let existing := timers st !! key in
  let st1 := match existing with
             | Some h => clearTimeout h st
             | None => st
             end in
  let '(to, st2) :=
    setTimeout {| t_key := key; t_document := document; t_delay := delay |} st1 in
  with_timers (insert key to) st2.

(** The callback armed by [scheduleValidate]. *)
Definition timeout_callback (write_ok : bool) (cb : Timeout) (st : State) : State :=
  validate write_ok (t_document cb) (with_timers (delete (t_key cb)) st).

(** The listener of [onDidCloseTextDocument]. *)
Definition on_close_document (doc : Uri) (st : State) : State :=
  let st1 := with_collection (delete doc) st in
  let key := uri_toString doc in
  let t := timers st1 !! key in
  let st2 := match t with
             | Some h => clearTimeout h st1
             | None => st1
             end in
  with_timers (delete key) st2.

(** [provideDocumentFormattingEdits(document)] up to the point where the
    promise is pending (or already rejected by a failed write). *)
Definition settle (document : Uri) (original : JSString) (c : FmtCall)
    (st : State) : option (list TextEdit) * State :=
  match docs st !! document with
  | None => (None, st)
  | Some d =>
      match format_outcome d original (f_promise c) with
      | None => (None, st)
      | Some (edits, shown) => (Some edits, with_popups (fun l => l ++ shown) st)
      end
  end.

Definition provideDocumentFormattingEdits (write_error : option JSString)
    (document : Uri) (st : State) : State :=
  match docs st !! document with
  | None => st
  | Some d =>
      let original := getText d in
      let '(pid, st1) := spawn st in
      let c := runAlloyFmt write_error in
      let '(edits, st2) := settle document original c st1 in
      with_formats
        (insert pid {| p_document := document; p_original := original;
                       p_call := c; p_edits := edits |}) st2
  end.

(** A process event for a format action: the listeners of [runAlloyFmt]
    run, and when they settle the promise the [.then]/[.catch] callbacks
    run. *)
Definition format_on (pid : positive) (p : Formatting) (ev : ChildEvent)
    (st : State) : State :=
  let c := runAlloyFmt_on ev (p_call p) in
  match f_promise (p_call p) with
  | Pending =>
      let '(edits, st1) := settle (p_document p) (p_original p) c st in
      with_formats
        (insert pid {| p_document := p_document p; p_original := p_original p;
                       p_call := c; p_edits := edits |}) st1
  | _ =>
      with_formats
        (insert pid {| p_document := p_document p; p_original := p_original p;
                       p_call := c; p_edits := p_edits p |}) st
  end.

(** Everything that can happen to the extension once it is activated. *)
Inductive Event :=
| DidOpenTextDocument (d : TextDocument)
| DidChangeTextDocument (d : TextDocument)
| DidSaveTextDocument (doc : Uri)
| DidChangeActiveTextEditor (ed : option Uri)
| DidCloseTextDocument (doc : Uri)
| TimeoutFires (h : positive) (write_ok : bool)
| ChildEmits (pid : positive) (ev : ChildEvent)
| FormatDocument (doc : Uri) (write_error : option JSString).

Definition step (st : State) (e : Event) : State :=
  match e with
  | DidOpenTextDocument d =>
      scheduleValidate (uri d) 50 (with_docs (insert (uri d) d) st)
  | DidChangeTextDocument d =>
      scheduleValidate (uri d) 250 (with_docs (insert (uri d) d) st)
  | DidSaveTextDocument doc => scheduleValidate doc 50 st
  | DidChangeActiveTextEditor (Some doc) => scheduleValidate doc 50 st
  | DidChangeActiveTextEditor None => st
  | DidCloseTextDocument doc => on_close_document doc st
  | TimeoutFires h write_ok =>
      match timeouts st !! h with
      | Some cb => timeout_callback write_ok cb (with_timeouts (delete h) st)
      | None => st
      end
  | ChildEmits pid ev =>
      match children st !! pid with
      | Some v => validate_on pid v ev st
      | None =>
          match formats st !! pid with
          | Some p => format_on pid p ev st
          | None => st
          end
      end
  | FormatDocument doc write_error =>
      provideDocumentFormattingEdits write_error doc st
  end.

Definition run (st : State) (evs : list Event) : State :=
  fold_left step evs st.

(** [setupDiagnostics(context)]: an empty collection and no timer, then a
    first validation of the active editor's document, if there is one. *)
Definition setupDiagnostics (open_docs : gmap Uri TextDocument)
    (activeTextEditor : option Uri) : State :=
  let st := {| docs := open_docs; collection := ∅; timers := ∅; timeouts := ∅;
               next_timeout := 1%positive; children := ∅; formats := ∅;
               next_pid := 1%positive; popups := [] |} in
  match activeTextEditor with
  | Some doc => scheduleValidate doc 50 st
  | None => st
  end.

(* ===================================================================== *)
(** ** The vocabulary of the statements *)
(* ===================================================================== *)

(** Dropping trailing characters: the second half of [trim]. *)
Definition rtrim (s : JSString) : JSString :=
  rev (drop_while is_space (rev s)).

(** The character that ends a greedy run, if the input goes on. *)
Definition stops (k : cclass) (t : JSString) : Prop :=
  match t with
  | [] => True
  | c :: _ => in_class k c = false
  end.

(** A record of the formatter's error stream, [<stdin>:L:C:] followed by
    the text up to the next record or the end of the stream. *)
Record ErrorRecord := {
  rec_line : JSString;
  rec_col : JSString;
  rec_text : JSString
}.

Definition record_text (r : ErrorRecord) : JSString :=
  stdin_marker ++ rec_line r ++ colon ++ rec_col r ++ colon ++ rec_text r.

Definition stream (rs : list ErrorRecord) : JSString :=
  concat (map record_text rs).







Definition marker (r : ErrorRecord) : JSString :=
  stdin_marker ++ rec_line r ++ colon ++ rec_col r ++ colon.




Definition starts_with_digit (s : JSString) : Prop :=
  match s with
  | c :: _ => is_digit c = true
  | [] => False
  end.

(** Two records split over several lines, after a blank line. *)
Definition two_records : list ErrorRecord :=
  [ {| rec_line := u16 "360"; rec_col := u16 "37";
       rec_text := u16 " missing ',' in
   expression list
" |};
    {| rec_line := u16 "361"; rec_col := u16 "1";
       rec_text := u16 "	expected }  " |} ].

Definition is_data (ev : ChildEvent) : Prop :=
  match ev with
  | StdoutData _ | StderrData _ => True
  | ErrorEv _ | CloseEv _ => False
  end.

(** The text accumulated from the chunks of each stream. *)
Fixpoint stdout_of (evs : list ChildEvent) : JSString :=
  match evs with
  | StdoutData c :: evs' => c ++ stdout_of evs'
  | _ :: evs' => stdout_of evs'
  | [] => []
  end.

Fixpoint stderr_of (evs : list ChildEvent) : JSString :=
  match evs with
  | StderrData c :: evs' => c ++ stderr_of evs'
  | _ :: evs' => stderr_of evs'
  | [] => []
  end.

(** [stderr || `alloy fmt exited with code ${code}`] *)
Definition exit_message (stderr : JSString) (code : option Z) : JSString :=
  match stderr with
  | [] => u16 "alloy fmt exited with code " ++ show_code code
  | _ => stderr
  end.

Definition start_failure (reason : JSString) : JSString :=
  u16 "Failed to start formatter: " ++ reason.

(** Every timeout armed in the runtime is the one recorded in [timers]
    under the key of its document, and handles are never reused. *)
Definition timers_consistent (st : State) : Prop :=
  (forall h cb, timeouts st !! h = Some cb ->
     timers st !! t_key cb = Some h /\ t_key cb = uri_toString (t_document cb))
  /\ (forall key h, timers st !! key = Some h -> (h < next_timeout st)%positive).

(** Nothing of the extension's state refers to the document [u]. *)
Definition forgotten (u : Uri) (st : State) : Prop :=
  collection st !! u = None
  /\ timers st !! uri_toString u = None
  /\ (forall h cb, timeouts st !! h = Some cb -> t_document cb <> u)
  /\ (forall pid v, children st !! pid = Some v -> v_document v <> u).

(** The editor raises no event for the document [u]. *)
Definition not_about (u : Uri) (e : Event) : Prop :=
  match e with
  | DidOpenTextDocument d | DidChangeTextDocument d => uri d <> u
  | DidSaveTextDocument doc => doc <> u
  | DidChangeActiveTextEditor (Some doc) => doc <> u
  | _ => True
  end.

Definition at_most_one_timer (st : State) : Prop :=
  forall h1 h2 cb1 cb2,
    timeouts st !! h1 = Some cb1 -> timeouts st !! h2 = Some cb2 ->
    t_document cb1 = t_document cb2 -> h1 = h2.

Definition at_most_one_in_flight (st : State) : Prop :=
  forall p1 p2 v1 v2,
    children st !! p1 = Some v1 -> children st !! p2 = Some v2 ->
    v_document v1 = v_document v2 -> p1 = p2.

(** A document used in the examples below, and the first validation of it
    that reports one error. *)
Definition a_river : TextDocument :=
  {| uri := u16 "file:///a.river"; languageId := river;
     getText := u16 "a = 1
b = " |}.

Definition b_river : TextDocument :=
  {| uri := u16 "file:///b.river"; languageId := river; getText := u16 "c = 2" |}.

Definition one_error : JSString := u16 "<stdin>:2:5: expected expression".

Definition one_diagnostic : Diagnostic :=
  {| range := {| range_start := {| pos_line := Fin 1; character := Fin 4 |};
                 range_end := {| pos_line := Fin 1; character := Fin 4 |} |};
     diag_message := u16 "expected expression";
     severity := SevError;
     source := u16 "alloy fmt" |}.

(** The document is opened, its timer fires and the validation fails with
    one positioned error. *)
Definition first_validation : list Event :=
  [ DidOpenTextDocument a_river; TimeoutFires 1 true;
    ChildEmits 1 (StderrData one_error); ChildEmits 1 (CloseEv (Some 1)) ].

(** An edit follows and a second validation is started. *)
Definition second_validation : list Event :=
  first_validation ++ [ DidChangeTextDocument a_river; TimeoutFires 2 true ].

(** The document is closed while its validation is still running. *)
Definition close_during_validation : list Event :=
  [ DidOpenTextDocument a_river; TimeoutFires 1 true;
    DidCloseTextDocument (uri a_river) ].

(** A format action on [a_river] whose process has been spawned. *)
Definition format_requested : list Event :=
  [ DidOpenTextDocument a_river; FormatDocument (uri a_river) None ].

(** The range from the start of the first line to the end of the last. *)
Definition full_range (d : TextDocument) : Range :=
  {| range_start := {| pos_line := Fin 0; character := Fin 0 |};
     range_end := {| pos_line := Fin (lineCount d - 1);
                     character :=
                       Fin (Z.of_nat (length (default [] (last (doc_lines d))))) |} |}.

Definition popup_text (msg : JSString) : JSString :=
  u16 "River format failed: " ++ msg ++ u16 " " ++ hint.

(** What [parseAlloyErrors] matches against: the text with its white
    space normalized, trimmed. *)
Definition normalized_text (stderr : JSString) : JSString :=
  trim (replace_ws_runs false stderr).

(** A message on one line: no [<], no white space but the plain space, and
    nothing to trim. *)
Definition clean_message (m : JSString) : Prop :=
  Forall (fun c => c <> 60%N /\ (is_space c = true -> c = SP)) m
  /\ trim m = m.

(** A text of the formatter with a [<] but no record marker. *)
Definition no_marker_text : JSString := u16 "Error: unexpected token <eof>
	at line 3".

(** Line feeds, carriage returns and tabs turned into plain spaces. *)
Definition blanks_to_spaces (c : N) : N :=
  if ((c =? 10) || (c =? 13) || (c =? 9))%N then SP else c.

(** Every event but the explicit format action. *)
Definition not_format (e : Event) : Prop :=
  match e with
  | FormatDocument _ _ => False
  | _ => True
  end.

(** What a diagnostic published by the validator looks like. *)
Definition alloy_diagnostic (d : Diagnostic) : Prop :=
  severity d = SevError /\ source d = u16 "alloy fmt"
  /\ clean_message (diag_message d).

(** A document of another language. *)
Definition c_json : TextDocument :=
  {| uri := u16 "file:///c.json"; languageId := u16 "json"; getText := u16 "{}" |}.

(** Every entry of the [timers] map refers to an armed timeout of its
    key. *)
Definition timers_armed (st : State) : Prop :=
  forall key h, timers st !! key = Some h ->
    exists cb, timeouts st !! h = Some cb /\ t_key cb = key.

(** Process identifiers are fresh when handed out, and a process is either
    a validation or a format action. *)
Definition pids_fresh (st : State) : Prop :=
  (forall pid v, children st !! pid = Some v ->
     (pid < next_pid st)%positive /\ formats st !! pid = None)
  /\ (forall pid p, formats st !! pid = Some p -> (pid < next_pid st)%positive).

(** The [.catch] callback of the provider in [src/unnamed/part_001], the
    copy of the extension without background diagnostics: every failure is
    shown. *)
Definition on_failed_v1 (msg : JSString) : list TextEdit * list JSString :=
  ([], [u16 "River format failed: " ++ msg ++ u16 " " ++ hint]).

(** The chain [runAlloyFmt(...).then(...).catch(...)] of that copy; its
    [.then] callback is the one of [src/extension.js]. *)
Definition format_outcome_v1 (document : TextDocument) (original : JSString)
    (p : Promise JSString) : option (list TextEdit * list JSString) :=
  match p with
  | Pending => None
  | Resolved formatted =>
      match on_formatted document original formatted with
      | inl edits => Some (edits, [])
      | inr thrown => Some (on_failed_v1 thrown)
      end
  | Rejected m => Some (on_failed_v1 m)
  end.

(** An error reported beyond the end of [a_river], which has two lines. *)
Definition far_error : PositionedError :=
  {| line := Fin 8; col := Fin 0; message := u16 "unexpected end" |}.

(** The ['data'] events of [stderr] that deliver the given chunks to the
    process [pid], in order. *)
Definition stderr_chunks (pid : positive) (chunks : list JSString) : list Event :=
  map (fun c => ChildEmits pid (StderrData c)) chunks.

(** The position an error reports. *)
Definition reported_position (e : PositionedError) : Position :=
  {| pos_line := line e; character := col e |}.

(** The diagnostic [dg] shows the error [e] in the document [d]: it is an
    error of [alloy fmt] with the message of [e], the position [e] reports
    is one end of its range, and when [e] reports a line number, the other
    end is the end of that line, or of the last line of [d] when the
    document is shorter. *)
Definition renders (d : TextDocument) (e : PositionedError) (dg : Diagnostic)
  : Prop :=
  diag_message dg = message e
  /\ severity dg = SevError
  /\ source dg = u16 "alloy fmt"
  /\ (range_start (range dg) = reported_position e
      \/ range_end (range dg) = reported_position e)
  /\ forall l, line e = Fin l ->
       exists txt,
         doc_lines d !! Z.to_nat (Z.min l (lineCount d - 1)) = Some txt
         /\ let line_end :=
              {| pos_line := Fin (Z.min l (lineCount d - 1));
                 character := Fin (Z.of_nat (length txt)) |} in
            (range dg = {| range_start := reported_position e;
                           range_end := line_end |}
             \/ range dg = {| range_start := line_end;
                              range_end := reported_position e |}).

(** Output of a formatter that fails without any positioned record. *)
Definition unknown_failure : JSString := u16 "panic: runtime error
goroutine 1 [running]".

(* ===================================================================== *)
(** ** Facts about strings *)
(* ===================================================================== *)

Section Strings.

Implicit Types (s t : JSString) (c : N).


Lemma drop_while_all p s :
  Forall (fun x => p x = true) s -> drop_while p s = [].
Proof. induction 1 as [|x s Hx _ IH]; simpl; [done | by rewrite Hx]. Qed.

Lemma drop_while_stop p c t : p c = false -> drop_while p (c :: t) = c :: t.
Proof. intros H. simpl. by rewrite H. Qed.

Lemma drop_while_idem p s : drop_while p (drop_while p s) = drop_while p s.
Proof.
  induction s as [|c s IH]; simpl; [done |].
  destruct (p c) eqn:E; [done | by rewrite drop_while_stop].
Qed.

Lemma take_drop_while p s : take_while p s ++ drop_while p s = s.
Proof.
  induction s as [|c s IH]; simpl; [done |].
  destruct (p c); simpl; [by rewrite IH | done].
Qed.



Lemma trim_rtrim s : trim s = rtrim (drop_while is_space s).
Proof. done. Qed.

Lemma rtrim_app s t :
  Exists (fun x => is_space x = false) t -> rtrim (s ++ t) = s ++ rtrim t.
Proof.
  intros Ht. unfold rtrim. rewrite rev_app_distr.
  apply Exists_exists in Ht as (x & Hin & Hx).
  apply list_elem_of_In, in_rev in Hin.
  apply in_split in Hin as (l1 & l2 & Hrev).
  rewrite Hrev.
  assert (Hgen : forall l1 tail,
    drop_while is_space ((l1 ++ x :: l2) ++ tail)
    = drop_while is_space (l1 ++ x :: l2) ++ tail).
  { clear -Hx. induction l1 as [|y l1 IH]; intros tail; simpl.
    - by rewrite Hx.
    - destruct (is_space y); [apply IH | done]. }
  rewrite Hgen, rev_app_distr, rev_involutive. done.
Qed.

Lemma rtrim_has_nonspace s :
  Exists (fun x => is_space x = false) s ->
  Exists (fun x => is_space x = false) (rtrim s).
Proof.
  intros H. unfold rtrim.
  apply Exists_exists in H as (x & Hin & Hx).
  apply list_elem_of_In, in_rev in Hin.
  induction (rev s) as [|y l IH]; simpl in *; [done |].
  destruct (is_space y) eqn:E.
  - destruct Hin as [-> | Hin]; [congruence | by apply IH].
  - apply Exists_exists. exists y. split; [| done].
    apply list_elem_of_In, in_rev. rewrite rev_involutive. by left.
Qed.


Lemma rtrim_idem s : rtrim (rtrim s) = rtrim s.
Proof.
  unfold rtrim. rewrite rev_involutive. by rewrite drop_while_idem.
Qed.

Lemma blank_or_not s :
  Forall (fun x => is_space x = true) s \/ Exists (fun x => is_space x = false) s.
Proof.
  induction s as [|c s [IH | IH]].
  - left. constructor.
  - destruct (is_space c) eqn:E; [left; by constructor | right; by left].
  - right. by right.
Qed.

(** The two halves of [trim] commute. *)
Lemma rtrim_drop_while s :
  rtrim (drop_while is_space s) = drop_while is_space (rtrim s).
Proof.
  induction s as [|c s IH]; [done |].
  destruct (is_space c) eqn:E.
  - simpl drop_while at 1. rewrite E.
    destruct (blank_or_not s) as [Hs | Hex].
    + assert (Hcs : rtrim (c :: s) = []).
      { unfold rtrim. rewrite drop_while_all; [done |].
        apply Forall_forall. intros x Hin.
        apply list_elem_of_In, in_rev in Hin.
        destruct Hin as [<- | Hin]; [done |].
        apply list_elem_of_In in Hin. by eapply Forall_forall in Hs. }
      rewrite Hcs. simpl. rewrite drop_while_all by done.
      unfold rtrim. simpl. done.
    + change (c :: s) with ([c] ++ s). rewrite rtrim_app by done.
      simpl. by rewrite E.
  - rewrite drop_while_stop by done.
    assert (Hex : Exists (fun x => is_space x = false) (c :: s)) by (by left).
    apply rtrim_has_nonspace in Hex.
    destruct (rtrim (c :: s)) as [|y l] eqn:Hr; [by inversion Hex |].
    assert (y = c) as ->.
    { revert Hr. unfold rtrim. simpl.
      destruct (rev s ++ [c]) as [|z l'] eqn:Hz using rev_ind.
      - by destruct (rev s).
      - clear IHl'. intros Hr.
        assert (Hpre : exists l0, drop_while is_space (rev s ++ [c]) = l0 ++ [c]).
        { clear -E. induction (rev s) as [|w l0 IH0]; simpl.
          - rewrite E. by exists [].
          - destruct (is_space w); [done | by exists (w :: l0)]. }
        destruct Hpre as [l0 Hl0]. rewrite Hz in Hl0. rewrite Hl0 in Hr.
        rewrite rev_app_distr in Hr. simpl in Hr. congruence. }
    by rewrite drop_while_stop.
Qed.

Lemma trim_rtrim_absorb s : trim (rtrim s) = trim s.
Proof.
  rewrite !trim_rtrim, <- rtrim_drop_while, rtrim_idem.
  by rewrite rtrim_drop_while.
Qed.

Lemma trim_drop_while s : trim (drop_while is_space s) = trim s.
Proof. unfold trim. by rewrite drop_while_idem. Qed.

End Strings.

(* ===================================================================== *)
(** ** Facts about the regular expression engine *)
(* ===================================================================== *)

Section Regex.

Implicit Types (s t : JSString) (re : list node) (k : cclass).

Lemma greedy_unfold {A} (f : nat -> option A) lo hi :
  greedy f lo hi =
  if (hi <? lo)%nat then None
  else match f hi with
       | Some r => Some r
       | None => match hi with O => None | S h => greedy f lo h end
       end.
Proof. by destruct hi. Qed.

Lemma greedy_first {A} (f : nat -> option A) lo hi r :
  (lo <= hi)%nat -> f hi = Some r -> greedy f lo hi = Some r.
Proof.
  intros Hle Hf. rewrite greedy_unfold, Hf.
  by destruct (Nat.ltb_spec hi lo); [lia |].
Qed.

Lemma greedy_Some {A} (f : nat -> option A) lo hi r :
  greedy f lo hi = Some r ->
  exists n, (lo <= n <= hi)%nat /\ f n = Some r.
Proof.
  induction hi as [|h IH]; rewrite greedy_unfold;
    [destruct (Nat.ltb_spec 0 lo) as [|Hle]
    |destruct (Nat.ltb_spec (S h) lo) as [|Hle]]; try done.
  - destruct (f 0%nat) eqn:E; [| done]. intros [= <-]. exists 0%nat. split; [lia | done].
  - destruct (f (S h)) eqn:E.
    + intros [= <-]. exists (S h). split; [lia | done].
    + intros H. destruct (IH H) as (n & Hn & Hf). exists n. split; [lia | done].
Qed.

Lemma is_prefix_app p s : is_prefix p (p ++ s) = true.
Proof. induction p as [|a p IH]; simpl; [done |]. by rewrite N.eqb_refl. Qed.

Lemma is_prefix_length p s : is_prefix p s = true -> (length p <= length s)%nat.
Proof.
  revert s. induction p as [|a p IH]; intros [|b s]; simpl; try done; [lia |].
  intros [_ H]%andb_true_iff. apply IH in H. lia.
Qed.

Lemma is_prefix_head a p b s : is_prefix (a :: p) (b :: s) = true -> a = b.
Proof. simpl. intros [H _]%andb_true_iff. by apply N.eqb_eq. Qed.

Lemma span_le k s : (span k s <= length s)%nat.
Proof. induction s as [|c s IH]; simpl; [lia |]. destruct (in_class k c); simpl; lia. Qed.

Lemma span_app_stop k s t :
  Forall (fun c => in_class k c = true) s -> stops k t ->
  span k (s ++ t) = length s.
Proof.
  induction 1 as [|c s Hc _ IH]; intros Ht; simpl.
  - destruct t as [|c t]; [done |]. simpl in *. by rewrite Ht.
  - rewrite Hc. by rewrite IH.
Qed.

Lemma span_take k s n :
  (n <= span k s)%nat -> Forall (fun c => in_class k c = true) (take n s).
Proof.
  revert n. induction s as [|c s IH]; intros [|n]; simpl; try constructor.
  - destruct (in_class k c) eqn:E; [done | lia].
  - apply IH. destruct (in_class k c); lia.
Qed.

Lemma span_drop_while s : drop (span Space s) s = drop_while is_space s.
Proof.
  induction s as [|c s IH]; simpl; [done |]. by destruct (is_space c).
Qed.

(** Inversion of a successful match, node by node. *)
Lemma match_at_Lit_inv cs re s caps n :
  match_at (Lit cs :: re) s = Some (caps, n) ->
  is_prefix cs s = true /\
  exists m, match_at re (drop (length cs) s) = Some (caps, m)
            /\ n = (length cs + m)%nat.
Proof.
  simpl. destruct (is_prefix cs s); [| done].
  destruct (match_at re _) as [[caps' m]|]; [| done].
  intros [= <- <-]. eauto.
Qed.

Lemma match_at_Many_inv k lo re s caps n :
  match_at (Many k lo :: re) s = Some (caps, n) ->
  exists j m, (lo <= j <= span k s)%nat
              /\ match_at re (drop j s) = Some (caps, m) /\ n = (j + m)%nat.
Proof.
  simpl. intros (j & Hj & H)%greedy_Some.
  destruct (match_at re _) as [[caps' m]|] eqn:E; [| done].
  injection H as <- <-. eauto.
Qed.

Lemma match_at_Capture_inv k lo re s caps n :
  match_at (Capture k lo :: re) s = Some (caps, n) ->
  exists j caps' m, (lo <= j <= span k s)%nat
                    /\ match_at re (drop j s) = Some (caps', m)
                    /\ caps = take j s :: caps' /\ n = (j + m)%nat.
Proof.
  simpl. intros (j & Hj & H)%greedy_Some.
  destruct (match_at re _) as [[caps' m]|] eqn:E; [| done].
  injection H as <- <-. eauto 10.
Qed.

(** A match never reads past the end of the input. *)
Lemma match_at_length re s caps n :
  match_at re s = Some (caps, n) -> (n <= length s)%nat.
Proof.
  revert s caps n. induction re as [|nd re IH]; intros s caps n.
  - simpl. intros [= <- <-]. lia.
  - destruct nd as [cs | k lo | k lo].
    + intros (Hp & m & Hm & ->)%match_at_Lit_inv.
      apply IH in Hm. apply is_prefix_length in Hp.
      rewrite length_drop in Hm. lia.
    + intros (j & m & Hj & Hm & ->)%match_at_Many_inv.
      apply IH in Hm. pose proof (span_le k s).
      rewrite length_drop in Hm. lia.
    + intros (j & caps' & m & Hj & Hm & _ & ->)%match_at_Capture_inv.
      apply IH in Hm. pose proof (span_le k s).
      rewrite length_drop in Hm. lia.
Qed.

(** Building a match from the left: the literal, then a run that the next
    character ends. *)
Lemma match_at_Lit_app cs re s caps m :
  match_at re s = Some (caps, m) ->
  match_at (Lit cs :: re) (cs ++ s) = Some (caps, (length cs + m)%nat).
Proof.
  intros H. simpl. by rewrite is_prefix_app, drop_app_length, H.
Qed.

Lemma match_at_Many_app k lo re a t caps m :
  Forall (fun c => in_class k c = true) a -> (lo <= length a)%nat -> stops k t ->
  match_at re t = Some (caps, m) ->
  match_at (Many k lo :: re) (a ++ t) = Some (caps, (length a + m)%nat).
Proof.
  intros Ha Hlo Ht H. simpl. rewrite span_app_stop by done.
  apply greedy_first; [done |]. by rewrite drop_app_length, H.
Qed.


End Regex.

(* ===================================================================== *)
(** ** Facts about numbers *)
(* ===================================================================== *)

Section Numbers.




Lemma toNumber_not_NaN v : toNumber v <> NaN.
Proof. unfold toNumber. by repeat case_match. Qed.

Lemma minus_one_not_NaN x : x <> NaN -> minus_one x <> NaN.
Proof. destruct x; simpl; try done. intros _. apply toNumber_not_NaN. Qed.

(** [Math.max(0, x)] is never negative, whatever number [x] is. *)
Lemma Math_max_0_nonneg x : x <> NaN -> nonneg (Math_max (Fin 0) x).
Proof. destruct x; simpl; try done. lia. Qed.

Lemma digit_not_space c : is_digit c = true -> is_space c = false.
Proof.
  unfold is_digit, is_space. intros [H1 H2]%andb_true_iff.
  apply N.leb_le in H1, H2.
  repeat (apply orb_false_iff; split);
    try (apply N.eqb_neq; lia).
  apply andb_false_iff. left. apply N.leb_gt. lia.
Qed.

Lemma digit_not_sign c :
  is_digit c = true -> (c =? 45)%N = false /\ (c =? 43)%N = false.
Proof.
  unfold is_digit. intros [H1 H2]%andb_true_iff.
  apply N.leb_le in H1, H2. split; apply N.eqb_neq; lia.
Qed.



Lemma parseInt_starts_digit c ds : is_digit c = true -> parseInt (c :: ds) <> NaN.
Proof.
  intros Hc. unfold parseInt.
  rewrite drop_while_stop by (by apply digit_not_space).
  destruct (digit_not_sign c Hc) as [-> ->].
  simpl take_while. rewrite Hc. apply toNumber_not_NaN.
Qed.


End Numbers.

(* ===================================================================== *)
(** ** The parser on well-formed error streams *)
(* ===================================================================== *)

Section Parser.

Implicit Types (s t : JSString) (r : ErrorRecord) (rs : list ErrorRecord).






Lemma digits_stop_colon t : stops Digit (colon ++ t).
Proof. done. Qed.




(** *** Normalization of a stream of records *)




Lemma replace_ws_runs_blank f s :
  Forall (fun c => is_space c = true) s ->
  Forall (fun c => is_space c = true) (replace_ws_runs f s).
Proof.
  intros Hs. revert f. induction Hs as [|c s Hc _ IH]; intros f; simpl.
  - constructor.
  - rewrite Hc. destruct f; [apply IH | constructor; [done | apply IH]].
Qed.





Lemma marker_solid r :
  Forall (fun c => is_digit c = true) (rec_line r) ->
  Forall (fun c => is_digit c = true) (rec_col r) ->
  marker r <> [] /\ Forall (fun c => is_space c = false) (marker r).
Proof.
  intros HL HC. split; [done |]. unfold marker.
  assert (Hd : forall ds, Forall (fun c => is_digit c = true) ds ->
                          Forall (fun c => is_space c = false) ds).
  { intros ds Hds. eapply Forall_impl; [exact Hds |].
    intros c. apply digit_not_space. }
  assert (Hm : Forall (fun c => is_space c = false) stdin_marker)
    by (by repeat constructor).
  assert (Hcolon : Forall (fun c => is_space c = false) colon)
    by (by repeat constructor).
  rewrite !Forall_app. auto 10.
Qed.









(** *** What every match of the pattern looks like *)

Lemma search_Some re s j caps n :
  search re s = Some (j, caps, n) ->
  (j <= length s)%nat /\ match_at re (drop j s) = Some (caps, n).
Proof.
  revert j. induction s as [|c s IH]; intros j; simpl.
  - destruct (match_at re []) as [[caps' n']|] eqn:E; [| done].
    intros [= <- <- <-]. by split.
  - destruct (match_at re (c :: s)) as [[caps' n']|] eqn:E.
    + intros [= <- <- <-]. split; [lia | done].
    + destruct (search re s) as [[[j' caps'] n']|] eqn:E'; [| done].
      intros [= <- <- <-]. destruct (IH j' eq_refl) as [? ?]. split; [lia | done].
Qed.

Lemma take_span_digit s j :
  (1 <= j <= span Digit s)%nat -> starts_with_digit (take j s).
Proof.
  intros Hj. pose proof (span_take Digit s j ltac:(lia)) as H.
  destruct s as [|c s]; [simpl in Hj; lia |].
  destruct j as [|j]; [lia |]. simpl in *. by inversion H.
Qed.

Lemma match_at_error_re s caps n :
  match_at error_re s = Some (caps, n) ->
  (0 < n)%nat /\
  exists a b c, caps = [a; b; c] /\ starts_with_digit a /\ starts_with_digit b.
Proof.
  unfold error_re.
  intros (_ & m0 & H & ->)%match_at_Lit_inv.
  apply match_at_Capture_inv in H as (j1 & caps1 & m1 & Hj1 & H & -> & ->).
  apply match_at_Lit_inv in H as (_ & m2 & H & ->).
  apply match_at_Capture_inv in H as (j2 & caps2 & m3 & Hj2 & H & -> & ->).
  apply match_at_Lit_inv in H as (_ & m4 & H & ->).
  apply match_at_Many_inv in H as (j3 & m5 & Hj3 & H & ->).
  apply match_at_Capture_inv in H as (j4 & caps4 & m6 & Hj4 & H & -> & ->).
  simpl in H. injection H as <- <-.
  split; [simpl; lia |].
  eexists _, _, _. split; [done |]. split; by apply take_span_digit.
Qed.

Lemma error_of_match_nonneg a b c :
  starts_with_digit a -> starts_with_digit b ->
  nonneg (line (error_of_match [a; b; c])) /\ nonneg (col (error_of_match [a; b; c])).
Proof.
  intros Ha Hb. destruct a as [|x a]; [done |]. destruct b as [|y b]; [done |].
  unfold error_of_match. cbn [line col nth].
  split; apply Math_max_0_nonneg, minus_one_not_NaN, parseInt_starts_digit; done.
Qed.

Lemma exec_Some s i m i' :
  exec error_re s i = Some (m, i') ->
  (i < i' <= length s)%nat /\
  exists a b c, m = [a; b; c] /\ starts_with_digit a /\ starts_with_digit b.
Proof.
  unfold exec. destruct (Nat.ltb_spec (length s) i) as [|Hi]; [done |].
  destruct (search error_re (drop i s)) as [[[j caps] n]|] eqn:E; [| done].
  intros [= <- <-].
  apply search_Some in E as [Hj Hm].
  pose proof (match_at_length _ _ _ _ Hm) as Hn.
  apply match_at_error_re in Hm as [Hpos Hcaps].
  rewrite !length_drop in *. split; [lia | done].
Qed.

(** Every record pushed by the loop has coordinates that are not
    negative. *)
Lemma exec_loop_nonneg fuel : forall s i errors,
  Forall (fun e => nonneg (line e) /\ nonneg (col e)) errors ->
  Forall (fun e => nonneg (line e) /\ nonneg (col e)) (exec_loop fuel s i errors).
Proof.
  induction fuel as [|fuel IH]; intros s i errors Herr; [done |].
  simpl. destruct (exec error_re s i) as [[m i']|] eqn:E; [| done].
  apply IH. apply Forall_app. split; [done |].
  apply exec_Some in E as (_ & a & b & c & -> & Ha & Hb).
  constructor; [| constructor]. by apply error_of_match_nonneg.
Qed.

(** The loop ends by itself: every match moves [lastIndex] forward, so the
    bound on the number of iterations is never what stops it. *)
Lemma exec_loop_fuel fuel : forall extra s i errors,
  (length s < fuel + i)%nat ->
  exec_loop (fuel + extra) s i errors = exec_loop fuel s i errors.
Proof.
  induction fuel as [|fuel IH]; intros extra s i errors Hlen.
  - simpl. destruct extra as [|extra]; [done |]. simpl.
    unfold exec. by destruct (Nat.ltb_spec (length s) i); [| lia].
  - simpl. destruct (exec error_re s i) as [[m i']|] eqn:E; [| done].
    apply IH. apply exec_Some in E as [Hi _]. lia.
Qed.

Lemma parseAlloyErrors_fuel c stderr extra :
  let normalized := trim (replace_ws_runs false (c :: stderr)) in
  exec_loop (S (length normalized) + extra) normalized 0 []
  = parseAlloyErrors (c :: stderr).
Proof. intros normalized. unfold parseAlloyErrors. apply exec_loop_fuel. lia. Qed.

(** *** A parsed record leaves a marker in the raw text *)

Lemma is_prefix_eq p s : is_prefix p s = true -> s = p ++ drop (length p) s.
Proof.
  revert s. induction p as [|a p IH]; intros [|b s]; simpl; try done.
  intros [Ha Hp]%andb_true_iff. apply N.eqb_eq in Ha as ->. f_equal. by apply IH.
Qed.

Lemma match_at_error_re_shape s caps n :
  match_at error_re s = Some (caps, n) ->
  exists ds1 ds2 rest,
    s = stdin_marker ++ ds1 ++ colon ++ ds2 ++ colon ++ rest
    /\ ds1 <> [] /\ Forall (fun c => is_digit c = true) ds1
    /\ ds2 <> [] /\ Forall (fun c => is_digit c = true) ds2.
Proof.
  unfold error_re.
  intros (P0 & m0 & H & ->)%match_at_Lit_inv.
  apply match_at_Capture_inv in H as (j1 & caps1 & m1 & Hj1 & H & -> & ->).
  apply match_at_Lit_inv in H as (P1 & m2 & H & ->).
  apply match_at_Capture_inv in H as (j2 & caps2 & m3 & Hj2 & H & -> & ->).
  apply match_at_Lit_inv in H as (P2 & m4 & _ & ->).
  apply is_prefix_eq in P0, P1, P2.
  set (s1 := drop (length stdin_marker) s) in *.
  set (s2 := drop (length colon) (drop j1 s1)) in *.
  set (s3 := drop (length colon) (drop j2 s2)) in *.
  exists (take j1 s1), (take j2 s2), s3.
  assert (Hne : forall j (t : JSString), (1 <= j <= span Digit t)%nat -> take j t <> []).
  { intros j t Hj Habs. pose proof (take_span_digit t j Hj) as Hd.
    by rewrite Habs in Hd. }
  repeat split.
  - rewrite P0 at 1. f_equal.
    rewrite <- (take_drop j1 s1) at 1. f_equal.
    rewrite P1 at 1. f_equal.
    rewrite <- (take_drop j2 s2) at 1. f_equal. exact P2.
  - by apply Hne.
  - apply (span_take Digit). lia.
  - by apply Hne.
  - apply (span_take Digit). lia.
Qed.

(** A solid factor of the normalized text stands as it is in the raw
    text. *)
Lemma replace_ws_runs_prefix m : forall s b,
  Forall (fun c => is_space c = false) m ->
  replace_ws_runs false s = m ++ b -> exists b', s = m ++ b'.
Proof.
  induction m as [|x m IH]; intros s b Hm Hs; [by exists s |].
  apply Forall_cons in Hm as [Hx Hm].
  destruct s as [|c s]; [done |]. simpl in Hs.
  destruct (is_space c) eqn:E.
  - injection Hs as <- _. done.
  - injection Hs as -> Hs. destruct (IH _ _ Hm Hs) as [b' ->]. by exists b'.
Qed.

Lemma replace_ws_runs_factor m : forall s f a b,
  m <> [] -> Forall (fun c => is_space c = false) m ->
  replace_ws_runs f s = a ++ m ++ b -> exists a' b', s = a' ++ m ++ b'.
Proof.
  intros s. induction s as [|c s IH]; intros f a b Hne Hm Hs.
  - simpl in Hs. destruct a; [by destruct m | done].
  - simpl in Hs. destruct (is_space c) eqn:E.
    + assert (exists a1, replace_ws_runs true s = a1 ++ m ++ b) as [a1 Ha1].
      { destruct f; [by exists a |].
        destruct a as [|y a1].
        - destruct m as [|y m]; [done |]. simpl in Hs. injection Hs as <- _.
          apply Forall_cons in Hm as [Hy _]. done.
        - injection Hs as _ Hs. by exists a1. }
      destruct (IH _ _ _ Hne Hm Ha1) as (a' & b' & ->).
      by exists (c :: a'), b'.
    + destruct a as [|y a1].
      * destruct (replace_ws_runs_prefix m (c :: s) b Hm) as [b' Hb'].
        { simpl. by rewrite E. }
        by exists [], b'.
      * injection Hs as _ Hs. destruct (IH _ _ _ Hne Hm Hs) as (a' & b' & ->).
        by exists (c :: a'), b'.
Qed.

Lemma trim_factor s : exists p q, s = p ++ trim s ++ q.
Proof.
  exists (take_while is_space s).
  exists (rev (take_while is_space (rev (drop_while is_space s)))).
  unfold trim. rewrite <- rev_app_distr, take_drop_while, rev_involutive.
  by rewrite take_drop_while.
Qed.

Lemma search_app re a t caps n :
  match_at re t = Some (caps, n) -> search re (a ++ t) <> None.
Proof.
  intros H. induction a as [|c a IH].
  - destruct t; simpl; by rewrite H.
  - simpl. destruct (match_at re (c :: a ++ t)) as [[? ?]|]; [done |].
    by destruct (search re (a ++ t)) as [[[? ?] ?]|].
Qed.

Lemma match_at_position_re ds1 ds2 rest :
  ds1 <> [] -> Forall (fun c => is_digit c = true) ds1 ->
  ds2 <> [] -> Forall (fun c => is_digit c = true) ds2 ->
  match_at position_re (stdin_marker ++ ds1 ++ colon ++ ds2 ++ colon ++ rest)
  <> None.
Proof.
  intros H1 D1 H2 D2.
  assert (L1 : (1 <= length ds1)%nat) by (destruct ds1; [done | simpl; lia]).
  assert (L2 : (1 <= length ds2)%nat) by (destruct ds2; [done | simpl; lia]).
  assert (E3 : match_at [Lit colon] (colon ++ rest)
               = Some ([], (length colon + 0)%nat))
    by (by apply match_at_Lit_app).
  assert (E2 : match_at [Many Digit 1; Lit colon] (ds2 ++ colon ++ rest)
               = Some ([], (length ds2 + (length colon + 0))%nat))
    by (by apply match_at_Many_app).
  assert (E1 : match_at [Lit colon; Many Digit 1; Lit colon]
                 (colon ++ ds2 ++ colon ++ rest)
               = Some ([], (length colon + (length ds2 + (length colon + 0)))%nat))
    by (by apply match_at_Lit_app).
  assert (E0 : match_at [Many Digit 1; Lit colon; Many Digit 1; Lit colon]
                 (ds1 ++ colon ++ ds2 ++ colon ++ rest)
               = Some ([], (length ds1 + (length colon
                              + (length ds2 + (length colon + 0))))%nat))
    by (by apply match_at_Many_app).
  unfold position_re. by erewrite match_at_Lit_app.
Qed.

(** Whenever the parser finds a record, the test of the format action
    finds a marker in the same text. *)
Lemma parsed_has_positions stderr :
  parseAlloyErrors stderr <> [] -> test position_re stderr = true.
Proof.
  unfold parseAlloyErrors. destruct stderr as [|c0 stderr]; [done |].
  set (raw := c0 :: stderr). set (normalized := trim (replace_ws_runs false raw)).
  cbn [exec_loop]. unfold exec at 1.
  destruct (Nat.ltb_spec (length normalized) 0); [lia |].
  rewrite drop_0.
  destruct (search error_re normalized) as [[[j caps] n]|] eqn:E; [| done].
  intros _. apply search_Some in E as [_ Hm].
  apply match_at_error_re_shape in Hm
    as (ds1 & ds2 & rest & Hshape & H1 & D1 & H2 & D2).
  pose proof (take_drop j normalized) as Hsplit. rewrite Hshape in Hsplit.
  destruct (trim_factor (replace_ws_runs false raw)) as (p & q & Hp).
  fold normalized in Hp. rewrite <- Hsplit in Hp.
  set (m := stdin_marker ++ ds1 ++ colon ++ ds2 ++ colon).
  assert (Hm : m <> [] /\ Forall (fun c => is_space c = false) m)
    by (by apply (marker_solid {| rec_line := ds1; rec_col := ds2;
                                  rec_text := [] |})).
  destruct Hm as [Hne Hsolid].
  destruct (replace_ws_runs_factor m raw false (p ++ take j normalized) (rest ++ q)
              Hne Hsolid) as (a' & b' & Hraw).
  { rewrite Hp. unfold m. by rewrite <- !app_assoc. }
  rewrite Hraw. unfold test.
  pose proof (match_at_position_re ds1 ds2 b' H1 D1 H2 D2) as Hpos.
  destruct (match_at position_re _) as [[caps' n']|] eqn:E'; [| done].
  unfold m. rewrite <- !app_assoc.
  pose proof (search_app position_re a' _ _ _ E') as Hs.
  by destruct (search position_re _).
Qed.

End Parser.


(** C10: for every input, every record returned by [parseAlloyErrors] has
    a line and a column that are not negative; the out-of-grammar record
    [<stdin>:0:0: msg] is emitted at position (0,0). *)
Theorem parseAlloyErrors_nonneg (stderr : JSString) :
  Forall (fun e => nonneg (line e) /\ nonneg (col e)) (parseAlloyErrors stderr)
  /\ parseAlloyErrors (u16 "<stdin>:0:0: msg")
     = [ {| line := Fin 0; col := Fin 0; message := u16 "msg" |} ].
Proof.
  split; [| by vm_compute].
  unfold parseAlloyErrors. destruct stderr; [constructor |].
  apply exec_loop_nonneg. constructor.
Qed.


(* ===================================================================== *)
(** ** The invoker *)
(* ===================================================================== *)

Section Invoker.

Implicit Types (c : FmtCall) (evs : list ChildEvent).

Lemma runAlloyFmt_data c evs :
  Forall is_data evs ->
  let c' := fold_left (fun c ev => runAlloyFmt_on ev c) evs c in
  f_stdout c' = f_stdout c ++ stdout_of evs
  /\ f_stderr c' = f_stderr c ++ stderr_of evs
  /\ f_promise c' = f_promise c.
Proof.
  intros H. revert c. induction H as [|ev evs Hev _ IH]; intros c; simpl.
  - by rewrite !app_nil_r.
  - destruct ev as [chunk | chunk | |]; try done.
    + destruct (IH (runAlloyFmt_on (StdoutData chunk) c)) as (H1 & H2 & H3).
      simpl in *. by rewrite H1, H2, H3, <- ?app_assoc.
    + destruct (IH (runAlloyFmt_on (StderrData chunk) c)) as (H1 & H2 & H3).
      simpl in *. by rewrite H1, H2, H3, <- ?app_assoc.
Qed.

(** Once settled, a promise keeps its state whatever the process does. *)
Lemma runAlloyFmt_settled c evs :
  f_promise c <> Pending ->
  f_promise (fold_left (fun c ev => runAlloyFmt_on ev c) evs c) = f_promise c.
Proof.
  revert c. induction evs as [|ev evs IH]; intros c Hc; [done |].
  simpl. assert (f_promise (runAlloyFmt_on ev c) = f_promise c) as Heq.
  { destruct ev as [| | m | [[| |]|]]; simpl; by destruct (f_promise c). }
  rewrite IH; [done | by rewrite Heq].
Qed.

(** No match of [position_re] starts in a prefix without [<]. *)
Lemma test_skip_prefix (pre s : JSString) :
  Forall (fun x => x <> 60%N) pre ->
  test position_re (pre ++ s) = test position_re s.
Proof.
  induction 1 as [|x pre Hc _ IH]; [done |].
  unfold test in *. simpl app. cbn [search].
  assert (match_at position_re (x :: pre ++ s) = None) as ->.
  { unfold position_re. cbn [match_at].
    assert (is_prefix stdin_marker (x :: pre ++ s) = false) as ->; [| done].
    destruct (is_prefix stdin_marker (x :: pre ++ s)) eqn:E; [| done].
    apply (is_prefix_head 60%N (u16 "stdin>:")) in E. congruence. }
  by destruct (search position_re (pre ++ s)) as [[[? ?] ?]|].
Qed.

Lemma start_failure_positions (reason : JSString) :
  test position_re (start_failure reason) = test position_re reason.
Proof.
  unfold start_failure. apply test_skip_prefix.
  repeat constructor; done.
Qed.

End Invoker.

(* ===================================================================== *)
(** ** Invariants of the scheduler *)
(* ===================================================================== *)

Section Scheduler.

Implicit Types (st : State) (u doc : Uri).

Lemma validate_timers w doc st :
  timers (validate w doc st) = timers st
  /\ timeouts (validate w doc st) = timeouts st
  /\ next_timeout (validate w doc st) = next_timeout st
  /\ popups (validate w doc st) = popups st.
Proof.
  unfold validate. destruct (docs st !! doc); [| done].
  case_decide; [| done]. by destruct w.
Qed.

Lemma validate_on_timers pid v ev st :
  timers (validate_on pid v ev st) = timers st
  /\ timeouts (validate_on pid v ev st) = timeouts st
  /\ next_timeout (validate_on pid v ev st) = next_timeout st
  /\ popups (validate_on pid v ev st) = popups st.
Proof.
  destruct ev as [| | | code]; try done. unfold validate_on, validate_on_close.
  destruct code as [[| |]|]; try done;
    destruct (parseAlloyErrors _); try done; cbn [docs with_children];
    by destruct (docs st !! _).
Qed.

Lemma settle_fields doc original c st :
  let st' := (settle doc original c st).2 in
  timers st' = timers st /\ timeouts st' = timeouts st
  /\ next_timeout st' = next_timeout st /\ collection st' = collection st
  /\ children st' = children st /\ docs st' = docs st.
Proof.
  unfold settle. destruct (docs st !! doc); [| done].
  by destruct (format_outcome _ _ _) as [[? ?]|].
Qed.

Lemma format_on_fields pid p ev st :
  let st' := format_on pid p ev st in
  timers st' = timers st /\ timeouts st' = timeouts st
  /\ next_timeout st' = next_timeout st /\ collection st' = collection st
  /\ children st' = children st.
Proof.
  unfold format_on. destruct (f_promise (p_call p)); try done.
  pose proof (settle_fields (p_document p) (p_original p)
                (runAlloyFmt_on ev (p_call p)) st) as H.
  destruct (settle _ _ _ st) as [edits st1]. simpl in *. tauto.
Qed.

Lemma provide_fields w doc st :
  let st' := provideDocumentFormattingEdits w doc st in
  timers st' = timers st /\ timeouts st' = timeouts st
  /\ next_timeout st' = next_timeout st /\ collection st' = collection st
  /\ children st' = children st.
Proof.
  unfold provideDocumentFormattingEdits. destruct (docs st !! doc); [| done].
  cbn [spawn].
  match goal with |- context [settle ?a ?b ?c ?s] =>
    pose proof (settle_fields a b c s) as H; destruct (settle a b c s) as [e s1]
  end.
  simpl in *. tauto.
Qed.

Lemma scheduleValidate_consistent doc delay st :
  timers_consistent st -> timers_consistent (scheduleValidate doc delay st).
Proof.
  intros [H1 H2]. unfold scheduleValidate, uri_toString.
  assert (Hfresh : timeouts st !! next_timeout st = None).
  { destruct (timeouts st !! next_timeout st) as [cb|] eqn:E; [| done].
    apply H1 in E as [E _]. apply H2 in E. lia. }
  split.
  - intros h cb. destruct (timers st !! doc) as [old|] eqn:Eold; cbn;
      (destruct (decide (h = next_timeout st)) as [-> | Hne];
       [rewrite lookup_insert_eq; intros [= <-]; cbn;
        by rewrite lookup_insert_eq |]);
      rewrite lookup_insert_ne by done.
    + intros Hcb.
      destruct (decide (h = old)) as [-> | Hold];
        [by rewrite lookup_delete_eq in Hcb |].
      rewrite lookup_delete_ne in Hcb by done.
      destruct (H1 _ _ Hcb) as [Ht Hk]. split; [| done].
      rewrite lookup_insert_ne; [done |].
      intros Heq. rewrite <- Heq in Ht. congruence.
    + intros Hcb. destruct (H1 _ _ Hcb) as [Ht Hk]. split; [| done].
      rewrite lookup_insert_ne; [done |].
      intros Heq. rewrite <- Heq in Ht. congruence.
  - intros key h. destruct (timers st !! doc) as [old|] eqn:Eold; cbn;
      (destruct (decide (key = doc)) as [-> | Hne];
       [rewrite lookup_insert_eq; intros [= <-]; lia
       | rewrite lookup_insert_ne by done; intros Hk%H2; lia]).
Qed.

Lemma with_docs_consistent f st :
  timers_consistent st -> timers_consistent (with_docs f st).
Proof. done. Qed.

Lemma on_close_document_consistent doc st :
  timers_consistent st -> timers_consistent (on_close_document doc st).
Proof.
  intros [H1 H2]. unfold on_close_document, uri_toString. cbn [timers with_collection].
  split.
  - intros h cb. destruct (timers st !! doc) as [old|] eqn:Eold; cbn.
    + destruct (decide (h = old)) as [-> | Hold];
        [by rewrite lookup_delete_eq |].
      rewrite lookup_delete_ne by done. intros Hcb.
      destruct (H1 _ _ Hcb) as [Ht Hk]. split; [| done].
      rewrite lookup_delete_ne; [done |]. intros Heq.
      rewrite <- Heq in Ht. congruence.
    + intros Hcb. destruct (H1 _ _ Hcb) as [Ht Hk]. split; [| done].
      rewrite lookup_delete_ne; [done |]. intros Heq.
      rewrite <- Heq in Ht. congruence.
  - intros key h. destruct (timers st !! doc) as [old|] eqn:Eold; cbn;
      (destruct (decide (key = doc)) as [-> | Hne];
       [by rewrite lookup_delete_eq
       | rewrite lookup_delete_ne by done; apply H2]).
Qed.

Lemma step_consistent st e :
  timers_consistent st -> timers_consistent (step st e).
Proof.
  intros H. destruct e as [d | d | doc | [doc|] | doc | h w | pid ev | doc w];
    cbn [step]; try done.
  - by apply scheduleValidate_consistent.
  - by apply scheduleValidate_consistent.
  - by apply scheduleValidate_consistent.
  - by apply scheduleValidate_consistent.
  - by apply on_close_document_consistent.
  - destruct (timeouts st !! h) as [cb|] eqn:E; [| done].
    unfold timeout_callback, timers_consistent.
    destruct (validate_timers w (t_document cb)
                (with_timers (delete (t_key cb)) (with_timeouts (delete h) st)))
      as (-> & -> & -> & _).
    cbn. destruct H as [H1 H2]. split.
    + intros h' cb'. destruct (decide (h' = h)) as [-> | Hne];
        [by rewrite lookup_delete_eq |].
      rewrite lookup_delete_ne by done. intros Hcb.
      destruct (H1 _ _ Hcb) as [Ht Hk]. split; [| done].
      rewrite lookup_delete_ne; [done |]. intros Heq.
      destruct (H1 _ _ E) as [Ht' _]. rewrite Heq in Ht'. congruence.
    + intros key h'. destruct (decide (key = t_key cb)) as [-> | Hne];
        [by rewrite lookup_delete_eq
        | rewrite lookup_delete_ne by done; apply H2].
  - destruct (children st !! pid) as [v|].
    + unfold timers_consistent.
      by destruct (validate_on_timers pid v ev st) as (-> & -> & -> & _).
    + destruct (formats st !! pid) as [p|]; [| done].
      unfold timers_consistent.
      by destruct (format_on_fields pid p ev st) as (-> & -> & -> & _).
  - unfold timers_consistent.
    by destruct (provide_fields w doc st) as (-> & -> & -> & _).
Qed.

Lemma setupDiagnostics_consistent open_docs active :
  timers_consistent (setupDiagnostics open_docs active).
Proof.
  unfold setupDiagnostics. destruct active as [doc|].
  - apply scheduleValidate_consistent. by split.
  - by split.
Qed.

Lemma run_consistent evs : forall st,
  timers_consistent st -> timers_consistent (run st evs).
Proof.
  induction evs as [|e evs IH]; intros st H; [done |].
  apply IH. by apply step_consistent.
Qed.

Lemma consistent_at_most_one st : timers_consistent st -> at_most_one_timer st.
Proof.
  intros [H1 _] h1 h2 cb1 cb2 E1 E2 Hdoc.
  destruct (H1 _ _ E1) as [T1 K1]. destruct (H1 _ _ E2) as [T2 K2].
  rewrite K1, Hdoc, <- K2 in T1. congruence.
Qed.

(** *** A closed document *)

Lemma scheduleValidate_forgotten u doc delay st :
  doc <> u -> forgotten u st -> forgotten u (scheduleValidate doc delay st).
Proof.
  intros Hne (Hc & Ht & Hto & Hch). unfold scheduleValidate, uri_toString in *.
  assert (Hold : forall h cb, timeouts (match timers st !! doc with
                                        | Some h => clearTimeout h st
                                        | None => st
                                        end) !! h = Some cb -> t_document cb <> u).
  { intros h cb. destruct (timers st !! doc) as [old|]; [| apply Hto].
    cbn. destruct (decide (h = old)) as [-> | Hh];
      [by rewrite lookup_delete_eq | rewrite lookup_delete_ne by done; apply Hto]. }
  destruct (timers st !! doc) as [old|] eqn:E; unfold forgotten; cbn;
    (repeat split; [done | by rewrite lookup_insert_ne | | done]);
    intros h cb;
    (destruct (decide (h = next_timeout st)) as [-> | Hh];
     [rewrite lookup_insert_eq; by intros [= <-]
     | rewrite lookup_insert_ne by done; apply Hold]).
Qed.

Lemma validate_forgotten u w doc st :
  doc <> u -> forgotten u st -> forgotten u (validate w doc st).
Proof.
  intros Hne (Hc & Ht & Hto & Hch). unfold validate.
  destruct (docs st !! doc); [| done]. case_decide; [| done].
  assert (Hnew : forall pid v,
    <[next_pid st := {| v_document := doc; v_stderr := [] |}]> (children st) !! pid
      = Some v -> v_document v <> u).
  { intros pid v. destruct (decide (pid = next_pid st)) as [-> | Hp];
      [rewrite lookup_insert_eq; by intros [= <-]
      | rewrite lookup_insert_ne by done; apply Hch]. }
  destruct w; unfold forgotten; cbn; repeat split; try done.
  by rewrite lookup_insert_ne.
Qed.

Lemma validate_on_forgotten u pid v ev st :
  children st !! pid = Some v -> forgotten u st ->
  forgotten u (validate_on pid v ev st).
Proof.
  intros Hv (Hc & Ht & Hto & Hch). pose proof (Hch _ _ Hv) as Hne.
  destruct ev as [c | c | m | code]; cbn [validate_on]; try done.
  - unfold forgotten. cbn. repeat split; try done. intros pid' v'.
    destruct (decide (pid' = pid)) as [-> | Hp];
      [rewrite lookup_insert_eq; by intros [= <-]
      | rewrite lookup_insert_ne by done; apply Hch].
  - assert (Hdel : forall pid' v', delete pid (children st) !! pid' = Some v' ->
                                    v_document v' <> u).
    { intros pid' v'. destruct (decide (pid' = pid)) as [-> | Hp];
        [by rewrite lookup_delete_eq
        | rewrite lookup_delete_ne by done; apply Hch]. }
    unfold validate_on_close.
    destruct code as [[| |]|]; try destruct (parseAlloyErrors _);
      cbn [docs with_children]; try destruct (docs st !! _);
      unfold forgotten; cbn; repeat split; try done; by rewrite lookup_insert_ne.
Qed.

Lemma on_close_document_forgotten u doc st :
  forgotten u st -> forgotten u (on_close_document doc st).
Proof.
  intros (Hc & Ht & Hto & Hch). unfold on_close_document, uri_toString in *.
  cbn [timers with_collection].
  assert (Hcol : delete doc (collection st) !! u = None).
  { destruct (decide (doc = u)) as [-> | Hne];
      [by rewrite lookup_delete_eq | by rewrite lookup_delete_ne]. }
  assert (Htim : delete doc (timers st) !! u = None).
  { destruct (decide (doc = u)) as [-> | Hne];
      [by rewrite lookup_delete_eq | by rewrite lookup_delete_ne]. }
  destruct (timers st !! doc) as [old|]; unfold forgotten; cbn;
    repeat split; try done.
  intros h cb. destruct (decide (h = old)) as [-> | Hh];
    [by rewrite lookup_delete_eq | rewrite lookup_delete_ne by done; apply Hto].
Qed.

Lemma step_forgotten u st e :
  forgotten u st -> not_about u e -> forgotten u (step st e).
Proof.
  intros H He.
  destruct e as [d | d | doc | [doc|] | doc | h w | pid ev | doc w];
    cbn [step not_about] in *; try done.
  - by apply scheduleValidate_forgotten.
  - by apply scheduleValidate_forgotten.
  - by apply scheduleValidate_forgotten.
  - by apply scheduleValidate_forgotten.
  - by apply on_close_document_forgotten.
  - destruct (timeouts st !! h) as [cb|] eqn:E; [| done].
    destruct H as (Hc & Ht & Hto & Hch).
    unfold timeout_callback. apply validate_forgotten; [by eapply Hto |].
    repeat split; cbn; try done.
    + unfold uri_toString in *.
      destruct (decide (t_key cb = u)) as [-> | Hne];
        [by rewrite lookup_delete_eq | by rewrite lookup_delete_ne].
    + intros h' cb'. destruct (decide (h' = h)) as [-> | Hh];
        [by rewrite lookup_delete_eq
        | rewrite lookup_delete_ne by done; apply Hto].
  - destruct (children st !! pid) as [v|] eqn:E.
    + by apply validate_on_forgotten.
    + destruct (formats st !! pid) as [p|]; [| done].
      unfold forgotten.
      by destruct (format_on_fields pid p ev st) as (-> & -> & _ & -> & ->).
  - unfold forgotten.
    by destruct (provide_fields w doc st) as (-> & -> & _ & -> & ->).
Qed.

Lemma run_forgotten u evs : forall st,
  forgotten u st -> Forall (not_about u) evs -> forgotten u (run st evs).
Proof.
  induction evs as [|e evs IH]; intros st H Hevs; [done |].
  apply Forall_cons in Hevs as [He Hevs].
  apply IH; [| done]. by apply step_forgotten.
Qed.

(** Closing forgets the document, unless a validation is in flight. *)
Lemma close_forgets u st :
  timers_consistent st ->
  (forall pid v, children st !! pid = Some v -> v_document v <> u) ->
  forgotten u (on_close_document u st).
Proof.
  intros [H1 _] Hch. unfold on_close_document, uri_toString in *.
  cbn [timers with_collection].
  assert (Hto : forall h cb, timeouts st !! h = Some cb -> t_document cb = u ->
                             timers st !! u = Some h).
  { intros h cb Hcb Hu. destruct (H1 _ _ Hcb) as [Ht Hk].
    unfold uri_toString in Hk. by rewrite Hk, Hu in Ht. }
  destruct (timers st !! u) as [old|] eqn:E; unfold forgotten; cbn;
    repeat split; try done; try apply lookup_delete_eq.
  - intros h cb. destruct (decide (h = old)) as [-> | Hh];
      [by rewrite lookup_delete_eq |].
    rewrite lookup_delete_ne by done. intros Hcb Hu.
    pose proof (Hto _ _ Hcb Hu). congruence.
  - intros h cb Hcb Hu. pose proof (Hto _ _ Hcb Hu). congruence.
Qed.

End Scheduler.

(** C2: when a validation process exits with code 0, the ['close']
    listener stores the empty sequence of diagnostics for its document,
    whatever was published for it before. *)
Theorem validate_exit_zero_clears (st : State) (pid : positive) (v : Validation) :
  children st !! pid = Some v ->
  collection (step st (ChildEmits pid (CloseEv (Some 0)))) !! v_document v
  = Some [].
Proof.
  intros Hv. cbn [step]. rewrite Hv. cbn. apply lookup_insert_eq.
Qed.

Lemma validate_exit_zero_clears_witness :
  let st := run (setupDiagnostics ∅ None) second_validation in
  children st !! 2%positive = Some {| v_document := uri a_river; v_stderr := [] |}
  /\ collection st !! uri a_river = Some [one_diagnostic]
  /\ collection (step st (ChildEmits 2 (CloseEv (Some 0)))) !! uri a_river
     = Some [].
Proof.
  intros st.
  assert (H : children st !! 2%positive
              = Some {| v_document := uri a_river; v_stderr := [] |})
    by (by vm_compute).
  split; [exact H |]. split; [by vm_compute |].
  exact (validate_exit_zero_clears st 2 _ H).
Defined.

(** C3, as stated, fails: the result of a validation that was in flight
    when the document was closed is stored when it arrives, which
    re-creates the diagnostics of the closed document. *)
Lemma closed_document_diagnostics_recreated :
  let closed := run (setupDiagnostics ∅ None) close_during_validation in
  let late := run closed [ ChildEmits 1 (StderrData one_error);
                           ChildEmits 1 (CloseEv (Some 1)) ] in
  collection closed !! uri a_river = None
  /\ collection late !! uri a_river = Some [one_diagnostic].
Proof. by vm_compute. Qed.

(** C3, amended: closing a document removes its diagnostics and its
    pending timer, and as long as the editor raises no new event for the
    document they stay removed, provided that no validation of the
    document was in flight when it was closed. *)
Theorem closed_document_stays_removed
    (open_docs : gmap Uri TextDocument) (active : option Uri)
    (before after : list Event) (u : Uri) :
  let st := run (setupDiagnostics open_docs active) before in
  (forall pid v, children st !! pid = Some v -> v_document v <> u) ->
  Forall (not_about u) after ->
  let st' := run (step st (DidCloseTextDocument u)) after in
  collection st' !! u = None
  /\ timers st' !! uri_toString u = None
  /\ (forall h cb, timeouts st' !! h = Some cb -> t_document cb <> u).
Proof.
  intros st Hch Hafter st'.
  assert (Hst : timers_consistent st)
    by apply run_consistent, setupDiagnostics_consistent.
  assert (H : forgotten u st').
  { apply run_forgotten; [| done]. cbn [step]. by apply close_forgets. }
  destruct H as (? & ? & ? & _). done.
Qed.

Lemma closed_document_stays_removed_witness :
  let st := run (setupDiagnostics ∅ None) first_validation in
  let after := [ DidOpenTextDocument b_river; TimeoutFires 2 true;
                 ChildEmits 2 (CloseEv (Some 0)) ] in
  let st' := run (step st (DidCloseTextDocument (uri a_river))) after in
  (forall pid v, children st !! pid = Some v -> v_document v <> uri a_river)
  /\ Forall (not_about (uri a_river)) after
  /\ collection st !! uri a_river = Some [one_diagnostic]
  /\ collection st' !! uri a_river = None
  /\ timers st' !! uri_toString (uri a_river) = None.
Proof.
  intros st after st'.
  assert (H1 : forall pid v, children st !! pid = Some v ->
                             v_document v <> uri a_river).
  { intros pid v. assert (children st = ∅) as -> by (by vm_compute).
    by rewrite lookup_empty. }
  assert (H2 : Forall (not_about (uri a_river)) after).
  { repeat constructor. by vm_compute. }
  split; [exact H1 |]. split; [exact H2 |]. split; [by vm_compute |].
  pose proof (closed_document_stays_removed ∅ None first_validation after
                (uri a_river) H1 H2) as (Hc & Ht & _).
  split; [exact Hc | exact Ht].
Defined.

(** C9, as stated, fails: a timer that fires while the previous validation
    of the document is still running starts a second process. *)
Lemma two_validations_in_flight :
  ~ at_most_one_in_flight
      (run (setupDiagnostics ∅ None)
         [ DidOpenTextDocument a_river; TimeoutFires 1 true;
           DidChangeTextDocument a_river; TimeoutFires 2 true ]).
Proof.
  intros H.
  specialize (H 1%positive 2%positive
                {| v_document := uri a_river; v_stderr := [] |}
                {| v_document := uri a_river; v_stderr := [] |}).
  assert (1%positive = 2%positive) as Habs; [| done].
  apply H; by vm_compute.
Qed.

(** C9, amended: in every state the extension reaches, each document has
    at most one pending debounce timer; [scheduleValidate] cancels the
    timer pending for the document, if any, and installs the new one. *)
Theorem one_pending_timer_per_document
    (open_docs : gmap Uri TextDocument) (active : option Uri)
    (evs : list Event) (doc : Uri) (delay : Z) :
  let st := run (setupDiagnostics open_docs active) evs in
  let st' := scheduleValidate doc delay st in
  at_most_one_timer st
  /\ (forall h, timers st !! uri_toString doc = Some h -> timeouts st' !! h = None)
  /\ timers st' !! uri_toString doc = Some (next_timeout st)
  /\ timeouts st' !! next_timeout st
     = Some {| t_key := uri_toString doc; t_document := doc; t_delay := delay |}.
Proof.
  intros st st'.
  assert (Hst : timers_consistent st)
    by apply run_consistent, setupDiagnostics_consistent.
  split; [by apply consistent_at_most_one |].
  destruct Hst as [H1 H2]. subst st'. unfold scheduleValidate, uri_toString.
  repeat split.
  - intros h Hh. pose proof (H2 _ _ Hh) as Hlt. unfold uri_toString in Hh.
    rewrite Hh. cbn. rewrite lookup_insert_ne by lia. apply lookup_delete_eq.
  - destruct (timers st !! doc); cbn; apply lookup_insert_eq.
  - destruct (timers st !! doc); cbn; apply lookup_insert_eq.
Qed.

(** C4: the code does not do what the claim says.  After a validation has
    published an error, the next validation fails to start: its process
    emits ['error'], for which [validate] installed no listener, and the
    stale diagnostic stays published.  No popup is shown. *)
Theorem validate_spawn_error_keeps_diagnostics :
  let st := run (setupDiagnostics ∅ None) second_validation in
  let st' := step st (ChildEmits 2 (ErrorEv (u16 "spawn alloy ENOENT"))) in
  children st !! 2%positive = Some {| v_document := uri a_river; v_stderr := [] |}
  /\ collection st' !! uri a_river = Some [one_diagnostic]
  /\ popups st' = [].
Proof. by vm_compute. Qed.

(** In general the ['error'] event of a validation changes nothing. *)
Lemma validate_ignores_error (st : State) (pid : positive) (v : Validation)
    (m : JSString) :
  children st !! pid = Some v -> step st (ChildEmits pid (ErrorEv m)) = st.
Proof. intros H. cbn [step]. by rewrite H. Qed.

(** The validator never shows a popup. *)
Lemma validate_no_popup (st : State) (pid : positive) (v : Validation)
    (ev : ChildEvent) (h : positive) (w : bool) :
  (children st !! pid = Some v ->
   popups (step st (ChildEmits pid ev)) = popups st)
  /\ popups (step st (TimeoutFires h w)) = popups st.
Proof.
  split.
  - intros H. cbn [step]. rewrite H.
    by destruct (validate_on_timers pid v ev st) as (_ & _ & _ & ->).
  - cbn [step]. destruct (timeouts st !! h) as [cb|]; [| done].
    unfold timeout_callback.
    by destruct (validate_timers w (t_document cb)
                   (with_timers (delete (t_key cb)) (with_timeouts (delete h) st)))
      as (_ & _ & _ & ->).
Qed.

(* ===================================================================== *)
(** ** The invoker and the format action: theorems *)
(* ===================================================================== *)

(** C5: [runAlloyFmt] resolves with the accumulated [stdout] exactly when
    the process exits with code 0; on any other exit it rejects with the
    accumulated [stderr], or with a message naming the exit code when
    [stderr] is empty; a failure to start rejects with the reason prefixed
    by [Failed to start formatter:], a prefix that adds no positional
    marker, and no event of a format action's process changes the
    diagnostics. *)
Theorem runAlloyFmt_outcome (ds rest : list ChildEvent) (code : option Z)
    (reason : JSString) (st : State) (pid : positive) (p : Formatting)
    (ev : ChildEvent) :
  Forall is_data ds ->
  children st !! pid = None ->
  formats st !! pid = Some p ->
  f_promise (runAlloyFmt_run None (ds ++ CloseEv code :: rest))
    = (if decide (code = Some 0) then Resolved (stdout_of ds)
       else Rejected (exit_message (stderr_of ds) code))
  /\ f_promise (runAlloyFmt_run None (ds ++ ErrorEv reason :: rest))
     = Rejected (start_failure reason)
  /\ test position_re (start_failure reason) = test position_re reason
  /\ collection (step st (ChildEmits pid ev)) = collection st.
Proof.
  intros Hds Hch Hp.
  destruct (runAlloyFmt_data (runAlloyFmt None) ds Hds) as (Hout & Herr & Hpr).
  cbn [runAlloyFmt f_stdout f_stderr f_promise app] in Hout, Herr, Hpr.
  repeat split.
  - unfold runAlloyFmt_run. rewrite fold_left_app. cbn [fold_left].
    rewrite runAlloyFmt_settled;
      cbn [runAlloyFmt_on f_promise]; rewrite ?Hout, ?Herr, ?Hpr.
    + case_decide as Hc; [by subst code |].
      destruct code as [[| |]|]; try done; unfold exit_message;
        by destruct (stderr_of ds).
    + destruct code as [[| |]|]; try done; by destruct (stderr_of ds).
  - unfold runAlloyFmt_run. rewrite fold_left_app. cbn [fold_left].
    rewrite runAlloyFmt_settled;
      cbn [runAlloyFmt_on f_promise]; by rewrite ?Hpr.
  - apply start_failure_positions.
  - cbn [step]. rewrite Hch, Hp.
    by destruct (format_on_fields pid p ev st) as (_ & _ & _ & -> & _).
Qed.

Lemma runAlloyFmt_outcome_witness :
  let ds := [ StdoutData (u16 "a = 1"); StderrData (u16 "warn"); StdoutData (u16 "
b = ") ] in
  let st := run (setupDiagnostics ∅ None)
              (first_validation ++ [FormatDocument (uri a_river) None]) in
  Forall is_data ds
  /\ children st !! 2%positive = None
  /\ formats st !! 2%positive
     = Some {| p_document := uri a_river; p_original := getText a_river;
               p_call := runAlloyFmt None; p_edits := None |}
  /\ f_promise (runAlloyFmt_run None (ds ++ [CloseEv (Some 0)]))
     = Resolved (getText a_river)
  /\ f_promise (runAlloyFmt_run None
                  ([StderrData one_error] ++ [CloseEv (Some 1)]))
     = Rejected one_error
  /\ f_promise (runAlloyFmt_run None ([] ++ [CloseEv (Some 3)]))
     = Rejected (u16 "alloy fmt exited with code 3")
  /\ f_promise (runAlloyFmt_run None
                  (ds ++ [ErrorEv (u16 "spawn alloy ENOENT"); CloseEv (Some (-2))]))
     = Rejected (u16 "Failed to start formatter: spawn alloy ENOENT")
  /\ collection (step st (ChildEmits 2 (CloseEv (Some 1)))) !! uri a_river
     = Some [one_diagnostic].
Proof.
  intros ds st.
  assert (H1 : Forall is_data ds) by (by repeat constructor).
  assert (H2 : children st !! 2%positive = None) by (by vm_compute).
  assert (H3 : formats st !! 2%positive
     = Some {| p_document := uri a_river; p_original := getText a_river;
               p_call := runAlloyFmt None; p_edits := None |})
    by (by vm_compute).
  split; [exact H1 |]. split; [exact H2 |]. split; [exact H3 |].
  split; [exact (proj1 (runAlloyFmt_outcome ds [] (Some 0) [] st 2 _
                          (CloseEv (Some 1)) H1 H2 H3)) |].
  split; [exact (proj1 (runAlloyFmt_outcome [StderrData one_error] [] (Some 1) []
                          st 2 _ (CloseEv (Some 1))
                          ltac:(by repeat constructor) H2 H3)) |].
  split; [exact (proj1 (runAlloyFmt_outcome [] [] (Some 3) [] st 2 _
                          (CloseEv (Some 1)) ltac:(constructor) H2 H3)) |].
  split; [exact (proj1 (proj2 (runAlloyFmt_outcome ds [CloseEv (Some (-2))] None
                                 (u16 "spawn alloy ENOENT") st 2 _
                                 (CloseEv (Some 1)) H1 H2 H3))) |].
  rewrite (proj2 (proj2 (proj2 (runAlloyFmt_outcome ds [] None [] st 2 _
                                  (CloseEv (Some 1)) H1 H2 H3)))).
  by vm_compute.
Defined.

Section FormatAction.

Implicit Types (st : State) (d : TextDocument).

Lemma split_lines_nonempty s : forall after_cr cur, split_lines after_cr cur s <> [].
Proof.
  induction s as [|c s IH]; intros after_cr cur; simpl; [done |].
  destruct (c =? 10)%N; [by destruct after_cr |]. by destruct (c =? 13)%N.
Qed.

Lemma lineCount_pos d : 1 <= lineCount d.
Proof.
  unfold lineCount, doc_lines.
  pose proof (split_lines_nonempty (getText d) false []) as H.
  destruct (split_lines false [] (getText d)); [done | simpl; lia].
Qed.

Lemma lineAt_first d :
  exists r, lineAt d (Fin 0) = Some r
            /\ range_start r = {| pos_line := Fin 0; character := Fin 0 |}.
Proof.
  pose proof (lineCount_pos d) as H. unfold lineAt.
  destruct (Z.ltb_spec 0 (lineCount d)); [| lia]. cbn.
  unfold lineCount in H. destruct (doc_lines d) as [|l ls]; [simpl in H; lia |].
  cbn. eauto.
Qed.

Lemma lineAt_last d :
  exists r, lineAt d (Fin (lineCount d - 1)) = Some r
            /\ range_end r = range_end (full_range d).
Proof.
  pose proof (lineCount_pos d) as H. unfold lineAt, full_range.
  destruct (Z.leb_spec 0 (lineCount d - 1)); [| lia].
  destruct (Z.ltb_spec (lineCount d - 1) (lineCount d)); [| lia]. cbn.
  rewrite last_lookup. unfold lineCount in *.
  replace (Z.to_nat (Z.of_nat (length (doc_lines d)) - 1))
    with (pred (length (doc_lines d))) by lia.
  destruct (doc_lines d !! pred (length (doc_lines d))) as [l|] eqn:E.
  - cbn. eauto.
  - apply lookup_ge_None in E. lia.
Qed.

Lemma new_Range_full d :
  new_Range {| pos_line := Fin 0; character := Fin 0 |} (range_end (full_range d))
  = full_range d.
Proof.
  pose proof (lineCount_pos d) as H. unfold new_Range, isBefore, full_range. cbn.
  destruct (Z.ltb_spec 0 (lineCount d - 1)); [done |].
  destruct (Z.ltb_spec (lineCount d - 1) 0); [lia |].
  destruct (Z.ltb_spec 0 (Z.of_nat (length (default [] (last (doc_lines d))))))
    as [| Hk]; [done |].
  replace (lineCount d - 1) with 0 by lia.
  replace (Z.of_nat (length (default [] (last (doc_lines d))))) with 0 by lia.
  done.
Qed.

(** The [.then] callback on a document of the editor. *)
Lemma on_formatted_edits d original formatted :
  on_formatted d original formatted
  = inl (if decide (formatted = original) then []
         else [ {| edit_range := full_range d; newText := formatted |} ]).
Proof.
  unfold on_formatted. case_decide; [done |].
  destruct (lineAt_first d) as (r1 & -> & ->).
  destruct (lineAt_last d) as (r2 & -> & ->).
  by rewrite new_Range_full.
Qed.

Lemma on_failed_popup msg :
  on_failed msg
  = ([], if test position_re msg then [] else [popup_text msg]).
Proof. unfold on_failed. by destruct (test position_re msg). Qed.

End FormatAction.

(** C7: when the process of a format action exits with code 0, the
    provider resolves to no edit if the formatted output equals the text
    the document had when the action was requested, and otherwise to
    exactly one edit that replaces the full range of the document, from the
    start of its first line to the end of its last, with the formatted
    text. *)
Theorem format_success_edits (st st0 : State) (pid : positive) (p : Formatting)
    (d d0 : TextDocument) (doc : Uri) :
  children st !! pid = None ->
  formats st !! pid = Some p ->
  f_promise (p_call p) = Pending ->
  docs st !! p_document p = Some d ->
  docs st0 !! doc = Some d0 ->
  let formatted := f_stdout (p_call p) in
  let st' := step st (ChildEmits pid (CloseEv (Some 0))) in
  (exists p', formats st' !! pid = Some p'
     /\ f_promise (p_call p') = Resolved formatted
     /\ p_edits p'
        = Some (if decide (formatted = p_original p) then []
                else [ {| edit_range := full_range d; newText := formatted |} ]))
  /\ popups st' = popups st
  /\ formats (step st0 (FormatDocument doc None)) !! next_pid st0
     = Some {| p_document := doc; p_original := getText d0;
               p_call := runAlloyFmt None; p_edits := None |}.
Proof.
  intros Hch Hp Hpend Hd Hd0 formatted st'. subst st'. repeat split.
  - cbn [step]. rewrite Hch, Hp. unfold format_on. rewrite Hpend.
    unfold settle. rewrite Hd. cbn [runAlloyFmt_on f_promise]. rewrite Hpend.
    cbn [resolve format_outcome]. rewrite on_formatted_edits.
    eexists. cbn. rewrite lookup_insert_eq. split; [done |]. by cbn.
  - cbn [step]. rewrite Hch, Hp. unfold format_on. rewrite Hpend.
    unfold settle. rewrite Hd. cbn [runAlloyFmt_on f_promise]. rewrite Hpend.
    cbn [resolve format_outcome]. rewrite on_formatted_edits.
    cbn. apply app_nil_r.
  - cbn [step]. unfold provideDocumentFormattingEdits. rewrite Hd0.
    cbn [spawn]. unfold settle. cbn [docs]. rewrite Hd0. cbn.
    apply lookup_insert_eq.
Qed.

Lemma format_success_edits_witness :
  let st := run (setupDiagnostics ∅ None)
              (format_requested ++ [ChildEmits 1 (StdoutData (u16 "a = 1
b = 2
"))]) in
  let p := {| p_document := uri a_river; p_original := getText a_river;
              p_call := {| f_stdout := u16 "a = 1
b = 2
"; f_stderr := []; f_promise := Pending |};
              p_edits := None |} in
  children st !! 1%positive = None
  /\ formats st !! 1%positive = Some p
  /\ f_promise (p_call p) = Pending
  /\ docs st !! p_document p = Some a_river
  /\ exists p', formats (step st (ChildEmits 1 (CloseEv (Some 0)))) !! 1%positive
                = Some p'
       /\ p_edits p'
          = Some [ {| edit_range :=
                        {| range_start := {| pos_line := Fin 0; character := Fin 0 |};
                           range_end := {| pos_line := Fin 1; character := Fin 4 |} |};
                      newText := u16 "a = 1
b = 2
" |} ].
Proof.
  intros st p.
  assert (H1 : children st !! 1%positive = None) by (by vm_compute).
  assert (H2 : formats st !! 1%positive = Some p) by (by vm_compute).
  assert (H3 : f_promise (p_call p) = Pending) by done.
  assert (H4 : docs st !! p_document p = Some a_river) by (by vm_compute).
  split; [exact H1 |]. split; [exact H2 |]. split; [exact H3 |].
  split; [exact H4 |].
  destruct (proj1 (format_success_edits st st 1 p a_river a_river (uri a_river)
                     H1 H2 H3 H4 H4)) as (p' & Hp' & _ & Hedits).
  exists p'. split; [exact Hp' |]. rewrite Hedits. by vm_compute.
Defined.

(** C8: when a format action fails, an error message is shown exactly
    when the rejection message contains no marker [<stdin>:digits:digits:];
    it is then the only message shown, and it contains the raw failure text
    and the remediation hint.  In particular no message is shown when the
    parser finds a record in the rejection message.  The provider resolves
    to no edit.  A failure to start shows the message unless its reason
    contains a marker. *)
Theorem format_failure_popup (st : State) (pid : positive) (p : Formatting)
    (d : TextDocument) (ev : ChildEvent) (msg reason : JSString) :
  children st !! pid = None ->
  formats st !! pid = Some p ->
  f_promise (p_call p) = Pending ->
  docs st !! p_document p = Some d ->
  f_promise (runAlloyFmt_on ev (p_call p)) = Rejected msg ->
  let st' := step st (ChildEmits pid ev) in
  popups st' = popups st ++ (if test position_re msg then [] else [popup_text msg])
  /\ (parseAlloyErrors msg <> [] -> popups st' = popups st)
  /\ (exists p', formats st' !! pid = Some p' /\ p_edits p' = Some [])
  /\ on_failed msg = ([], if test position_re msg then [] else [popup_text msg])
  /\ on_failed (start_failure reason)
     = ([], if test position_re reason then []
            else [popup_text (start_failure reason)]).
Proof.
  intros Hch Hp Hpend Hd Hrej st'. subst st'.
  assert (Hpop : popups (step st (ChildEmits pid ev))
                 = popups st ++ (if test position_re msg then []
                                 else [popup_text msg])).
  { cbn [step]. rewrite Hch, Hp. unfold format_on. rewrite Hpend.
    unfold settle. rewrite Hd, Hrej. cbn [format_outcome].
    rewrite on_failed_popup. done. }
  repeat split.
  - exact Hpop.
  - intros Hparsed. rewrite Hpop, (parsed_has_positions msg Hparsed).
    apply app_nil_r.
  - cbn [step]. rewrite Hch, Hp. unfold format_on. rewrite Hpend.
    unfold settle. rewrite Hd, Hrej. cbn [format_outcome].
    rewrite on_failed_popup. eexists. cbn. by rewrite lookup_insert_eq.
  - apply on_failed_popup.
  - rewrite on_failed_popup. by rewrite start_failure_positions.
Qed.

Lemma format_failure_popup_witness :
  let st := run (setupDiagnostics ∅ None)
              (format_requested ++ [ChildEmits 1 (StderrData one_error)]) in
  let p := {| p_document := uri a_river; p_original := getText a_river;
              p_call := {| f_stdout := []; f_stderr := one_error;
                           f_promise := Pending |};
              p_edits := None |} in
  children st !! 1%positive = None
  /\ formats st !! 1%positive = Some p
  /\ f_promise (p_call p) = Pending
  /\ docs st !! p_document p = Some a_river
  /\ f_promise (runAlloyFmt_on (CloseEv (Some 1)) (p_call p)) = Rejected one_error
  /\ f_promise (runAlloyFmt_on (ErrorEv (u16 "spawn alloy ENOENT")) (p_call p))
     = Rejected (u16 "Failed to start formatter: spawn alloy ENOENT")
  /\ popups (step st (ChildEmits 1 (CloseEv (Some 1)))) = []
  /\ popups (step st (ChildEmits 1 (ErrorEv (u16 "spawn alloy ENOENT"))))
     = [ u16 "River format failed: Failed to start formatter: spawn alloy ENOENT Ensure `alloy` is installed and on PATH, or set `river.alloyPath`." ].
Proof.
  intros st p.
  assert (H1 : children st !! 1%positive = None) by (by vm_compute).
  assert (H2 : formats st !! 1%positive = Some p) by (by vm_compute).
  assert (H3 : f_promise (p_call p) = Pending) by done.
  assert (H4 : docs st !! p_document p = Some a_river) by (by vm_compute).
  assert (H5 : f_promise (runAlloyFmt_on (CloseEv (Some 1)) (p_call p))
               = Rejected one_error) by done.
  assert (H6 : f_promise (runAlloyFmt_on (ErrorEv (u16 "spawn alloy ENOENT")) (p_call p))
               = Rejected (u16 "Failed to start formatter: spawn alloy ENOENT"))
    by done.
  split; [exact H1 |]. split; [exact H2 |]. split; [exact H3 |].
  split; [exact H4 |]. split; [exact H5 |]. split; [exact H6 |].
  split.
  - rewrite (proj1 (format_failure_popup st 1 p a_river _ _ [] H1 H2 H3 H4 H5)).
    by vm_compute.
  - rewrite (proj1 (format_failure_popup st 1 p a_river _ _ [] H1 H2 H3 H4 H6)).
    by vm_compute.
Defined.

(* ===================================================================== *)
(** ** More about the parser *)
(* ===================================================================== *)

Section ParserMore.

Implicit Types (s t : JSString).

Lemma parseAlloyErrors_unfold stderr :
  parseAlloyErrors stderr
  = exec_loop (S (length (normalized_text stderr))) (normalized_text stderr) 0 [].
Proof. by destruct stderr. Qed.

Lemma exec_loop_Forall (P : PositionedError -> Prop) normalized :
  (forall i m i', exec error_re normalized i = Some (m, i') -> P (error_of_match m)) ->
  forall fuel i errors,
    Forall P errors -> Forall P (exec_loop fuel normalized i errors).
Proof.
  intros HP fuel. induction fuel as [|fuel IH]; intros i errors Herr; [done |].
  simpl. destruct (exec error_re normalized i) as [[m i']|] eqn:E; [| done].
  apply IH. apply Forall_app. split; [done |].
  constructor; [by eapply HP | constructor].
Qed.

Lemma drop_while_Forall (P : N -> Prop) p s : Forall P s -> Forall P (drop_while p s).
Proof.
  induction 1 as [|c s Hc Hs IH]; simpl; [constructor |].
  destruct (p c); [done | by constructor].
Qed.

Lemma trim_Forall (P : N -> Prop) s : Forall P s -> Forall P (trim s).
Proof.
  intros H. unfold trim.
  apply Forall_forall. intros x Hx%list_elem_of_In%in_rev%list_elem_of_In.
  revert x Hx. apply Forall_forall, drop_while_Forall.
  apply Forall_forall. intros x Hx%list_elem_of_In%in_rev%list_elem_of_In.
  revert x Hx. by apply Forall_forall, drop_while_Forall.
Qed.

Lemma trim_idem s : trim (trim s) = trim s.
Proof.
  rewrite (trim_rtrim s) at 1. by rewrite trim_rtrim_absorb, trim_drop_while.
Qed.

Lemma replace_ws_runs_plain f s :
  Forall (fun c => is_space c = true -> c = SP) (replace_ws_runs f s).
Proof.
  revert f. induction s as [|c s IH]; intros f; simpl; [constructor |].
  destruct (is_space c) eqn:E.
  - destruct f; [apply IH | constructor; [done | apply IH]].
  - constructor; [congruence | apply IH].
Qed.

(** The groups of a match are pieces of the text matched. *)
Lemma match_at_groups (P : N -> Prop) re : forall s caps n,
  Forall P s -> match_at re s = Some (caps, n) -> Forall (Forall P) caps.
Proof.
  induction re as [|nd re IH]; intros s caps n Hs.
  - simpl. intros [= <- <-]. constructor.
  - destruct nd as [cs | k lo | k lo].
    + intros (_ & m & Hm & _)%match_at_Lit_inv.
      eapply IH; [| exact Hm]. by apply Forall_drop.
    + intros (j & m & _ & Hm & _)%match_at_Many_inv.
      eapply IH; [| exact Hm]. by apply Forall_drop.
    + intros (j & caps' & m & _ & Hm & -> & _)%match_at_Capture_inv.
      constructor; [by apply Forall_take |].
      eapply IH; [| exact Hm]. by apply Forall_drop.
Qed.

(** The third group has no [<], and a match is at least 13 characters
    long. *)
Lemma match_at_error_re_text s caps n :
  match_at error_re s = Some (caps, n) ->
  (13 <= n)%nat /\
  exists a b c, caps = [a; b; c] /\ Forall (fun x => is_not_lt x = true) c.
Proof.
  unfold error_re.
  intros (_ & m0 & H & ->)%match_at_Lit_inv.
  apply match_at_Capture_inv in H as (j1 & caps1 & m1 & Hj1 & H & -> & ->).
  apply match_at_Lit_inv in H as (_ & m2 & H & ->).
  apply match_at_Capture_inv in H as (j2 & caps2 & m3 & Hj2 & H & -> & ->).
  apply match_at_Lit_inv in H as (_ & m4 & H & ->).
  apply match_at_Many_inv in H as (j3 & m5 & Hj3 & H & ->).
  apply match_at_Capture_inv in H as (j4 & caps4 & m6 & Hj4 & H & -> & ->).
  simpl in H. injection H as <- <-.
  split; [simpl; lia |].
  eexists _, _, _. split; [done |]. apply (span_take NotLt). lia.
Qed.

Lemma exec_inv s i m i' :
  exec error_re s i = Some (m, i') ->
  (i + 13 <= i' <= length s)%nat /\
  exists j n, match_at error_re (drop j (drop i s)) = Some (m, n).
Proof.
  unfold exec. destruct (Nat.ltb_spec (length s) i) as [|Hi]; [done |].
  destruct (search error_re (drop i s)) as [[[j caps] n]|] eqn:E; [| done].
  intros [= <- <-].
  apply search_Some in E as [Hj Hm].
  pose proof (match_at_length _ _ _ _ Hm) as Hn.
  pose proof (match_at_error_re_text _ _ _ Hm) as [Hmin _].
  rewrite !length_drop in *. split; [lia | eauto].
Qed.

Lemma replace_ws_runs_length f s : (length (replace_ws_runs f s) <= length s)%nat.
Proof.
  revert f. induction s as [|c s IH]; intros f; simpl; [lia |].
  destruct (is_space c), f; simpl;
    try (pose proof (IH true)); try (pose proof (IH false)); lia.
Qed.

Lemma drop_while_length p s : (length (drop_while p s) <= length s)%nat.
Proof. induction s as [|c s IH]; simpl; [lia |]. destruct (p c); simpl; lia. Qed.

Lemma normalized_text_length s : (length (normalized_text s) <= length s)%nat.
Proof.
  unfold normalized_text, trim. rewrite length_rev.
  pose proof (drop_while_length is_space
                (rev (drop_while is_space (replace_ws_runs false s)))).
  rewrite length_rev in *.
  pose proof (drop_while_length is_space (replace_ws_runs false s)).
  pose proof (replace_ws_runs_length false s). lia.
Qed.

Lemma exec_loop_count fuel : forall s i errors,
  (i <= length s)%nat ->
  (13 * length (exec_loop fuel s i errors)
   <= 13 * length errors + (length s - i))%nat.
Proof.
  induction fuel as [|fuel IH]; intros s i errors Hi; simpl; [lia |].
  destruct (exec error_re s i) as [[m i']|] eqn:E; [| lia].
  apply exec_inv in E as [Hi' _].
  specialize (IH s i' (errors ++ [error_of_match m]) ltac:(lia)).
  rewrite length_app in IH. simpl in IH. lia.
Qed.

(** *** White space around and inside the text *)

Lemma replace_ws_runs_map (f : N -> N) :
  (forall c, is_space (f c) = is_space c) ->
  (forall c, is_space c = false -> f c = c) ->
  forall s b, replace_ws_runs b (map f s) = replace_ws_runs b s.
Proof.
  intros H1 H2 s. induction s as [|c s IH]; intros b; [done |].
  simpl. rewrite H1. destruct (is_space c) eqn:E.
  - by rewrite !IH.
  - by rewrite IH, H2.
Qed.

Lemma drop_while_replace_flag f s :
  drop_while is_space (replace_ws_runs f s)
  = drop_while is_space (replace_ws_runs false s).
Proof.
  destruct s as [|c s]; [done |]. simpl.
  destruct (is_space c) eqn:E; [| done]. by destruct f.
Qed.

Lemma drop_while_replace_blank ws : forall f s,
  Forall (fun c => is_space c = true) ws ->
  drop_while is_space (replace_ws_runs f (ws ++ s))
  = drop_while is_space (replace_ws_runs false s).
Proof.
  induction ws as [|c ws IH]; intros f s Hws.
  - apply drop_while_replace_flag.
  - apply Forall_cons in Hws as [Hc Hws]. simpl. rewrite Hc.
    destruct f; simpl; by rewrite IH.
Qed.

Lemma drop_while_skip p (a b : JSString) :
  Forall (fun c => p c = true) a -> drop_while p (a ++ b) = drop_while p b.
Proof. induction 1 as [|c a Hc _ IH]; simpl; [done |]. by rewrite Hc. Qed.

Lemma rtrim_blank s : Forall (fun c => is_space c = true) s -> rtrim s = [].
Proof.
  intros H. unfold rtrim. rewrite drop_while_all; [done |].
  apply Forall_forall. intros x Hx%list_elem_of_In%in_rev%list_elem_of_In.
  by eapply Forall_forall in H.
Qed.

Lemma rtrim_cons c s :
  rtrim (c :: s)
  = match rtrim s with
    | [] => if is_space c then [] else [c]
    | _ => c :: rtrim s
    end.
Proof.
  destruct (blank_or_not s) as [Hs | Hs].
  - rewrite (rtrim_blank s Hs). unfold rtrim. simpl.
    rewrite drop_while_skip.
    + simpl. by destruct (is_space c).
    + apply Forall_forall. intros x Hx%list_elem_of_In%in_rev%list_elem_of_In.
      by eapply Forall_forall in Hs.
  - change (c :: s) with ([c] ++ s). rewrite rtrim_app by done.
    apply rtrim_has_nonspace in Hs.
    destruct (rtrim s); [by inversion Hs | done].
Qed.

Lemma rtrim_replace_blank ws s : forall f,
  Forall (fun c => is_space c = true) ws ->
  rtrim (replace_ws_runs f (s ++ ws)) = rtrim (replace_ws_runs f s).
Proof.
  induction s as [|c s IH]; intros f Hws.
  - simpl. rewrite !rtrim_blank; try done. by apply replace_ws_runs_blank.
  - simpl. destruct (is_space c), f; rewrite ?rtrim_cons, ?IH; done.
Qed.

Lemma normalized_text_blanks ws1 ws2 s :
  Forall (fun c => is_space c = true) ws1 ->
  Forall (fun c => is_space c = true) ws2 ->
  normalized_text (ws1 ++ s ++ ws2) = normalized_text s.
Proof.
  intros H1 H2. unfold normalized_text. rewrite !trim_rtrim.
  rewrite drop_while_replace_blank by done.
  rewrite !rtrim_drop_while. by rewrite rtrim_replace_blank.
Qed.

End ParserMore.

(** X1: a text in which the test of the format action finds no marker
    [<stdin>:digits:digits:] yields no error at all, whatever else it
    contains. *)
Theorem no_marker_no_records (stderr : JSString) :
  test position_re stderr = false -> parseAlloyErrors stderr = [].
Proof.
  intros Ht. destruct (parseAlloyErrors stderr) as [|e l] eqn:E; [done |].
  assert (parseAlloyErrors stderr <> []) as Hne by (by rewrite E).
  apply parsed_has_positions in Hne. congruence.
Qed.

Lemma no_marker_no_records_witness :
  test position_re no_marker_text = false
  /\ parseAlloyErrors no_marker_text = [].
Proof.
  assert (H : test position_re no_marker_text = false) by (by vm_compute).
  split; [exact H | exact (no_marker_no_records no_marker_text H)].
Defined.

Lemma parsed_messages_clean (stderr : JSString) :
  Forall (fun e => clean_message (message e)) (parseAlloyErrors stderr).
Proof.
  rewrite parseAlloyErrors_unfold. apply exec_loop_Forall; [| constructor].
  intros i m i' (_ & j & n & Hm)%exec_inv.
  assert (Hplain : Forall (fun c => is_space c = true -> c = SP)
                     (drop j (drop i (normalized_text stderr)))).
  { do 2 apply Forall_drop. apply trim_Forall, replace_ws_runs_plain. }
  pose proof (match_at_groups _ _ _ _ _ Hplain Hm) as Hg.
  apply match_at_error_re_text in Hm as (_ & a & b & c & -> & Hc).
  apply Forall_cons in Hg as [_ Hg]. apply Forall_cons in Hg as [_ Hg].
  apply Forall_cons in Hg as [Hcp _].
  unfold error_of_match. cbn [message nth]. split; [| apply trim_idem].
  apply trim_Forall. apply Forall_forall. intros x Hx. split.
  - eapply Forall_forall in Hc; [| exact Hx]. unfold is_not_lt in Hc.
    intros ->. done.
  - by eapply Forall_forall in Hcp.
Qed.

(** X2: for every input, the message of every error returned has no [<],
    no white space other than plain spaces (so it stands on one line), and
    neither begins nor ends with white space. *)
Theorem parseAlloyErrors_messages_clean (stderr : JSString) :
  Forall (fun e => clean_message (message e)) (parseAlloyErrors stderr).
Proof. apply parsed_messages_clean. Qed.

(** X3: which white-space character separates the words does not matter:
    replacing white-space characters by other white-space characters (a
    line feed by a space, say) leaves the result unchanged. *)
Theorem parseAlloyErrors_any_white_space (f : N -> N) (stderr : JSString) :
  (forall c, is_space (f c) = is_space c) ->
  (forall c, is_space c = false -> f c = c) ->
  parseAlloyErrors (map f stderr) = parseAlloyErrors stderr.
Proof.
  intros H1 H2. rewrite !parseAlloyErrors_unfold. unfold normalized_text.
  by rewrite replace_ws_runs_map.
Qed.

Lemma parseAlloyErrors_any_white_space_witness :
  (forall c, is_space (blanks_to_spaces c) = is_space c)
  /\ (forall c, is_space c = false -> blanks_to_spaces c = c)
  /\ parseAlloyErrors (map blanks_to_spaces (stream two_records))
     = parseAlloyErrors (stream two_records).
Proof.
  assert (H1 : forall c, is_space (blanks_to_spaces c) = is_space c).
  { intros c. unfold blanks_to_spaces.
    destruct (c =? 10)%N eqn:E1; [by apply N.eqb_eq in E1 as -> |].
    destruct (c =? 13)%N eqn:E2; [by apply N.eqb_eq in E2 as -> |].
    destruct (c =? 9)%N eqn:E3; [by apply N.eqb_eq in E3 as -> | done]. }
  assert (H2 : forall c, is_space c = false -> blanks_to_spaces c = c).
  { intros c Hc. unfold blanks_to_spaces.
    destruct (c =? 10)%N eqn:E1; [by apply N.eqb_eq in E1 as -> |].
    destruct (c =? 13)%N eqn:E2; [by apply N.eqb_eq in E2 as -> |].
    destruct (c =? 9)%N eqn:E3; [by apply N.eqb_eq in E3 as -> | done]. }
  split; [exact H1 |]. split; [exact H2 |].
  exact (parseAlloyErrors_any_white_space blanks_to_spaces _ H1 H2).
Defined.

(** X4: white space before and after the text is ignored. *)
Theorem parseAlloyErrors_ignores_outer_blanks (ws1 ws2 stderr : JSString) :
  Forall (fun c => is_space c = true) ws1 ->
  Forall (fun c => is_space c = true) ws2 ->
  parseAlloyErrors (ws1 ++ stderr ++ ws2) = parseAlloyErrors stderr.
Proof.
  intros H1 H2. rewrite !parseAlloyErrors_unfold.
  by rewrite normalized_text_blanks.
Qed.

Lemma parseAlloyErrors_ignores_outer_blanks_witness :
  Forall (fun c => is_space c = true) (u16 "
  ")
  /\ Forall (fun c => is_space c = true) (u16 "	
")
  /\ parseAlloyErrors (u16 "
  " ++ one_error ++ u16 "	
") = parseAlloyErrors one_error.
Proof.
  assert (H1 : Forall (fun c => is_space c = true) (u16 "
  ")) by (by repeat constructor).
  assert (H2 : Forall (fun c => is_space c = true) (u16 "	
")) by (by repeat constructor).
  split; [exact H1 |]. split; [exact H2 |].
  exact (parseAlloyErrors_ignores_outer_blanks _ _ one_error H1 H2).
Defined.

(** X5: the [while] loop of the parser ends by itself: allowing it any
    number of further iterations does not change the result. *)
Theorem parseAlloyErrors_loop_ends (stderr : JSString) (extra : nat) :
  exec_loop (S (length (normalized_text stderr)) + extra)
    (normalized_text stderr) 0 []
  = parseAlloyErrors stderr.
Proof.
  rewrite parseAlloyErrors_unfold.
  apply (exec_loop_fuel (S (length (normalized_text stderr))) extra). lia.
Qed.

(** X6: every error takes at least 13 characters of the text
    ([<stdin>:L:C:] and one character of message): a text of [n]
    characters yields at most [n / 13] errors. *)
Theorem parseAlloyErrors_count (stderr : JSString) :
  (13 * length (parseAlloyErrors stderr) <= length stderr)%nat.
Proof.
  rewrite parseAlloyErrors_unfold.
  pose proof (exec_loop_count (S (length (normalized_text stderr)))
                (normalized_text stderr) 0 [] ltac:(lia)) as H.
  pose proof (normalized_text_length stderr).
  change (length (@nil PositionedError)) with 0%nat in H. lia.
Qed.

(* ===================================================================== *)
(** ** More about the invoker *)
(* ===================================================================== *)

Lemma runAlloyFmt_pending_data (evs : list ChildEvent) : forall c,
  f_promise c = Pending ->
  f_promise (fold_left (fun c ev => runAlloyFmt_on ev c) evs c) = Pending
  <-> Forall is_data evs.
Proof.
  induction evs as [|ev evs IH]; intros c Hc; [by split |].
  simpl fold_left. destruct ev as [chunk | chunk | m | code].
  - rewrite IH by done. split; [by constructor | by inversion 1].
  - rewrite IH by done. split; [by constructor | by inversion 1].
  - rewrite runAlloyFmt_settled by (simpl; by rewrite Hc).
    simpl. rewrite Hc. split; [done | by inversion 1].
  - assert (f_promise (runAlloyFmt_on (CloseEv code) c) <> Pending) as Hs.
    { simpl. rewrite Hc. by destruct code as [[| |]|]. }
    rewrite runAlloyFmt_settled by done. split; [done | by inversion 1].
Qed.

(** X7: the promise of [runAlloyFmt] settles once: whatever the process
    reports after the promise is resolved or rejected leaves its state
    unchanged. *)
Theorem runAlloyFmt_settles_once (write_error : option JSString)
    (evs later : list ChildEvent) :
  f_promise (runAlloyFmt_run write_error evs) <> Pending ->
  f_promise (runAlloyFmt_run write_error (evs ++ later))
  = f_promise (runAlloyFmt_run write_error evs).
Proof.
  intros H. unfold runAlloyFmt_run in *. rewrite fold_left_app.
  by apply runAlloyFmt_settled.
Qed.

Lemma runAlloyFmt_settles_once_witness :
  f_promise (runAlloyFmt_run None [StdoutData (u16 "a = 1"); CloseEv (Some 0)])
    <> Pending
  /\ f_promise (runAlloyFmt_run None
                  ([StdoutData (u16 "a = 1"); CloseEv (Some 0)]
                   ++ [ErrorEv (u16 "late"); CloseEv (Some 1)]))
     = Resolved (u16 "a = 1").
Proof.
  assert (H : f_promise (runAlloyFmt_run None
                           [StdoutData (u16 "a = 1"); CloseEv (Some 0)])
              <> Pending) by done.
  split; [exact H |].
  exact (runAlloyFmt_settles_once None _ [ErrorEv (u16 "late"); CloseEv (Some 1)] H).
Defined.

(** X8: when writing the text to the process throws, the promise is
    rejected with [Failed to write to formatter: ] followed by the message
    of the exception, and stays so whatever the process does afterwards,
    an exit with code 0 included. *)
Theorem runAlloyFmt_write_failure (m : JSString) (evs : list ChildEvent) :
  f_promise (runAlloyFmt_run (Some m) evs)
  = Rejected (u16 "Failed to write to formatter: " ++ m).
Proof. unfold runAlloyFmt_run. by rewrite runAlloyFmt_settled. Qed.

(** X9: when the write succeeds, the promise is pending exactly as long as
    the process has only produced output: it never settles before the
    first ['close'] or ['error'], and always settles then. *)
Theorem runAlloyFmt_pending_iff (evs : list ChildEvent) :
  f_promise (runAlloyFmt_run None evs) = Pending <-> Forall is_data evs.
Proof. unfold runAlloyFmt_run. by apply runAlloyFmt_pending_data. Qed.

(* ===================================================================== *)
(** ** More about the validator *)
(* ===================================================================== *)

Section ValidatorMore.

Implicit Types (st : State) (u doc : Uri).

Lemma scheduleValidate_other_fields doc delay st :
  let st' := scheduleValidate doc delay st in
  collection st' = collection st /\ children st' = children st
  /\ formats st' = formats st /\ popups st' = popups st
  /\ docs st' = docs st /\ next_pid st' = next_pid st.
Proof. unfold scheduleValidate. by destruct (timers st !! _). Qed.

Lemma on_close_document_other_fields doc st :
  let st' := on_close_document doc st in
  children st' = children st /\ formats st' = formats st
  /\ popups st' = popups st /\ docs st' = docs st /\ next_pid st' = next_pid st.
Proof.
  unfold on_close_document. cbn [timers with_collection].
  by destruct (timers st !! _).
Qed.

Lemma validate_other_fields w doc st :
  formats (validate w doc st) = formats st /\ docs (validate w doc st) = docs st.
Proof.
  unfold validate. destruct (docs st !! doc); [| done].
  case_decide; [| done]. by destruct w.
Qed.

Lemma validate_on_other_fields pid v ev st :
  formats (validate_on pid v ev st) = formats st
  /\ docs (validate_on pid v ev st) = docs st.
Proof.
  destruct ev as [| | | code]; try done. unfold validate_on, validate_on_close.
  destruct code as [[| |]|]; try done;
    destruct (parseAlloyErrors _); try done; cbn [docs with_children];
    by destruct (docs st !! _).
Qed.

Lemma validate_collection w doc st :
  collection (validate w doc st) = collection st
  \/ collection (validate w doc st) = <[doc := []]> (collection st).
Proof.
  unfold validate. destruct (docs st !! doc); [| by left].
  case_decide; [| by left]. destruct w; [by left | by right].
Qed.

Lemma validate_on_collection pid v ev st :
  let st' := validate_on pid v ev st in
  collection st' = collection st
  \/ collection st' = <[v_document v := []]> (collection st)
  \/ exists d, collection st'
               = <[v_document v := map (diagnostic_of d)
                                     (parseAlloyErrors (v_stderr v))]>
                   (collection st).
Proof.
  destruct ev as [| | | code]; try (by left).
  unfold validate_on, validate_on_close.
  destruct code as [[| |]|]; try (right; by left);
    (destruct (parseAlloyErrors (v_stderr v)) as [|e l] eqn:E;
     [right; by left |]);
    cbn [docs with_children];
    (destruct (docs st !! v_document v) as [d|]; [| by left]);
    right; right; by exists d.
Qed.

Lemma diagnostic_of_alloy d e :
  clean_message (message e) -> alloy_diagnostic (diagnostic_of d e).
Proof. intros H. by repeat split; try apply H. Qed.

Lemma step_formats_popups st e :
  not_format e -> formats st = ∅ ->
  formats (step st e) = ∅ /\ popups (step st e) = popups st.
Proof.
  intros He Hf.
  destruct e as [d | d | doc | [doc|] | doc | h w | pid ev | doc w];
    cbn [step not_format] in *; try done.
  - by destruct (scheduleValidate_other_fields (uri d) 50
                   (with_docs (insert (uri d) d) st)) as (_ & _ & -> & -> & _).
  - by destruct (scheduleValidate_other_fields (uri d) 250
                   (with_docs (insert (uri d) d) st)) as (_ & _ & -> & -> & _).
  - by destruct (scheduleValidate_other_fields doc 50 st) as (_ & _ & -> & -> & _).
  - by destruct (scheduleValidate_other_fields doc 50 st) as (_ & _ & -> & -> & _).
  - by destruct (on_close_document_other_fields doc st) as (_ & -> & -> & _).
  - destruct (timeouts st !! h) as [cb|]; [| done]. unfold timeout_callback.
    destruct (validate_other_fields w (t_document cb)
                (with_timers (delete (t_key cb)) (with_timeouts (delete h) st)))
      as [-> _].
    by destruct (validate_timers w (t_document cb)
                   (with_timers (delete (t_key cb)) (with_timeouts (delete h) st)))
      as (_ & _ & _ & ->).
  - destruct (children st !! pid) as [v|].
    + destruct (validate_on_other_fields pid v ev st) as [-> _].
      by destruct (validate_on_timers pid v ev st) as (_ & _ & _ & ->).
    + by rewrite Hf, lookup_empty.
Qed.

Lemma run_formats_popups evs : forall st,
  Forall not_format evs -> formats st = ∅ ->
  formats (run st evs) = ∅ /\ popups (run st evs) = popups st.
Proof.
  induction evs as [|e evs IH]; intros st Hevs Hf; [done |].
  apply Forall_cons in Hevs as [He Hevs].
  destruct (step_formats_popups st e He Hf) as [Hf' Hp'].
  change (run st (e :: evs)) with (run (step st e) evs).
  destruct (IH (step st e) Hevs Hf') as [? ?]. split; [done | congruence].
Qed.

Lemma step_collection_alloy st e :
  (forall u ds, collection st !! u = Some ds -> Forall alloy_diagnostic ds) ->
  forall u ds, collection (step st e) !! u = Some ds -> Forall alloy_diagnostic ds.
Proof.
  intros H u ds.
  destruct e as [d | d | doc | [doc|] | doc | h w | pid ev | doc w];
    cbn [step].
  - destruct (scheduleValidate_other_fields (uri d) 50
                (with_docs (insert (uri d) d) st)) as (-> & _). apply H.
  - destruct (scheduleValidate_other_fields (uri d) 250
                (with_docs (insert (uri d) d) st)) as (-> & _). apply H.
  - destruct (scheduleValidate_other_fields doc 50 st) as (-> & _). apply H.
  - destruct (scheduleValidate_other_fields doc 50 st) as (-> & _). apply H.
  - apply H.
  - unfold on_close_document. cbn [timers with_collection].
    assert (collection
              (with_timers (delete (uri_toString doc))
                 match timers st !! uri_toString doc with
                 | Some h => clearTimeout h (with_collection (delete doc) st)
                 | None => with_collection (delete doc) st
                 end) = delete doc (collection st)) as ->
      by (by destruct (timers st !! _)).
    intros Hl. apply lookup_delete_Some in Hl as [_ Hl]. by eapply H.
  - destruct (timeouts st !! h) as [cb|]; [| apply H]. unfold timeout_callback.
    destruct (validate_collection w (t_document cb)
                (with_timers (delete (t_key cb)) (with_timeouts (delete h) st)))
      as [-> | ->]; cbn; [apply H |].
    intros Hl. apply lookup_insert_Some in Hl as [[_ <-] | [_ Hl]];
      [constructor | by eapply H].
  - destruct (children st !! pid) as [v|].
    + destruct (validate_on_collection pid v ev st) as [-> | [-> | [d ->]]];
        [apply H | |];
        intros Hl; apply lookup_insert_Some in Hl as [[_ <-] | [_ Hl]];
        try (by eapply H); [constructor |].
      apply Forall_map. eapply Forall_impl; [apply parsed_messages_clean |].
      intros e He. by apply diagnostic_of_alloy.
    + destruct (formats st !! pid) as [p|]; [| apply H].
      destruct (format_on_fields pid p ev st) as (_ & _ & _ & -> & _). apply H.
  - destruct (provide_fields w doc st) as (_ & _ & _ & -> & _). apply H.
Qed.

Lemma setupDiagnostics_fields open_docs active :
  collection (setupDiagnostics open_docs active) = ∅
  /\ formats (setupDiagnostics open_docs active) = ∅
  /\ popups (setupDiagnostics open_docs active) = []
  /\ children (setupDiagnostics open_docs active) = ∅.
Proof.
  unfold setupDiagnostics. destruct active as [doc|]; [| done].
  match goal with |- context [scheduleValidate ?a ?b ?c] =>
    destruct (scheduleValidate_other_fields a b c) as (-> & -> & -> & -> & _)
  end. done.
Qed.

End ValidatorMore.

(** X10: when the timer of a document whose language is not [river]
    fires, the timer is consumed and nothing else happens: no process is
    spawned and no diagnostics change. *)
Theorem validate_skips_other_languages (st : State) (h : positive) (w : bool)
    (cb : Timeout) (d : TextDocument) :
  timeouts st !! h = Some cb ->
  docs st !! t_document cb = Some d ->
  languageId d <> river ->
  let st' := step st (TimeoutFires h w) in
  children st' = children st /\ next_pid st' = next_pid st
  /\ collection st' = collection st /\ popups st' = popups st
  /\ timeouts st' = delete h (timeouts st)
  /\ timers st' = delete (t_key cb) (timers st).
Proof.
  intros Hh Hd Hl st'. subst st'. cbn [step]. rewrite Hh.
  unfold timeout_callback, validate. cbn [docs with_timers with_timeouts].
  rewrite Hd. by case_decide.
Qed.

Lemma validate_skips_other_languages_witness :
  let st := run (setupDiagnostics ∅ None) [DidOpenTextDocument c_json] in
  let cb := {| t_key := uri c_json; t_document := uri c_json; t_delay := 50 |} in
  timeouts st !! 1%positive = Some cb
  /\ docs st !! t_document cb = Some c_json
  /\ languageId c_json <> river
  /\ children (step st (TimeoutFires 1 true)) = children st
  /\ timers (step st (TimeoutFires 1 true)) = delete (t_key cb) (timers st).
Proof.
  intros st cb.
  assert (H1 : timeouts st !! 1%positive = Some cb) by (by vm_compute).
  assert (H2 : docs st !! t_document cb = Some c_json) by (by vm_compute).
  assert (H3 : languageId c_json <> river) by (by vm_compute).
  split; [exact H1 |]. split; [exact H2 |]. split; [exact H3 |].
  pose proof (validate_skips_other_languages st 1 true cb c_json H1 H2 H3)
    as (Hc & _ & _ & _ & _ & Ht).
  split; [exact Hc | exact Ht].
Defined.

(** X11: when the timer of a [river] document fires, its entry leaves the
    [timers] map and one process is started for the document, with an
    empty [stderr]; if writing the text to the process throws, the
    diagnostics of the document are cleared at once, and the process stays
    in flight so that its ['close'] is still handled. *)
Theorem timeout_starts_validation (st : State) (h : positive) (w : bool)
    (cb : Timeout) (d : TextDocument) :
  timeouts st !! h = Some cb ->
  docs st !! t_document cb = Some d ->
  languageId d = river ->
  let st' := step st (TimeoutFires h w) in
  children st'
    = <[next_pid st := {| v_document := t_document cb; v_stderr := [] |}]>
        (children st)
  /\ next_pid st' = Pos.succ (next_pid st)
  /\ collection st'
     = (if w then collection st else <[t_document cb := []]> (collection st))
  /\ timeouts st' = delete h (timeouts st)
  /\ timers st' = delete (t_key cb) (timers st).
Proof.
  intros Hh Hd Hl st'. subst st'. cbn [step]. rewrite Hh.
  unfold timeout_callback, validate. cbn [docs with_timers with_timeouts].
  rewrite Hd. case_decide; [| done]. by destruct w.
Qed.

Lemma timeout_starts_validation_witness :
  let st := run (setupDiagnostics ∅ None)
              (first_validation ++ [DidChangeTextDocument a_river]) in
  let cb := {| t_key := uri a_river; t_document := uri a_river; t_delay := 250 |} in
  let st' := step st (TimeoutFires 2 false) in
  timeouts st !! 2%positive = Some cb
  /\ docs st !! t_document cb = Some a_river
  /\ languageId a_river = river
  /\ collection st !! uri a_river = Some [one_diagnostic]
  /\ collection st' !! uri a_river = Some []
  /\ children st' !! 2%positive
     = Some {| v_document := uri a_river; v_stderr := [] |}.
Proof.
  intros st cb st'.
  assert (H1 : timeouts st !! 2%positive = Some cb) by (by vm_compute).
  assert (H2 : docs st !! t_document cb = Some a_river) by (by vm_compute).
  assert (H3 : languageId a_river = river) by done.
  split; [exact H1 |]. split; [exact H2 |]. split; [exact H3 |].
  split; [by vm_compute |].
  pose proof (timeout_starts_validation st 2 false cb a_river H1 H2 H3)
    as (Hc & _ & Hcol & _).
  subst st'. rewrite Hc, Hcol. split; [apply lookup_insert_eq |].
  assert (next_pid st = 2%positive) as -> by (by vm_compute).
  apply lookup_insert_eq.
Defined.

(** X12: an event of a validation process changes the diagnostics of its
    own document only, and nothing of the timers, the documents, the format
    actions and the popups. *)
Theorem validation_event_frame (st : State) (pid : positive) (v : Validation)
    (ev : ChildEvent) (u : Uri) :
  children st !! pid = Some v ->
  u <> v_document v ->
  let st' := step st (ChildEmits pid ev) in
  collection st' !! u = collection st !! u
  /\ timers st' = timers st /\ timeouts st' = timeouts st
  /\ docs st' = docs st /\ formats st' = formats st /\ popups st' = popups st.
Proof.
  intros Hv Hu st'. subst st'. cbn [step]. rewrite Hv.
  destruct (validate_on_timers pid v ev st) as (-> & -> & _ & ->).
  destruct (validate_on_other_fields pid v ev st) as (-> & ->).
  repeat split.
  destruct (validate_on_collection pid v ev st) as [-> | [-> | [d ->]]];
    [done | |]; by rewrite lookup_insert_ne.
Qed.

Lemma validation_event_frame_witness :
  let st := run (setupDiagnostics ∅ None)
              (second_validation ++ [ChildEmits 2 (StderrData one_error)]) in
  let st' := step st (ChildEmits 2 (CloseEv (Some 1))) in
  children st !! 2%positive
    = Some {| v_document := uri a_river; v_stderr := one_error |}
  /\ uri b_river <> uri a_river
  /\ collection st' !! uri b_river = collection st !! uri b_river
  /\ timers st' = timers st.
Proof.
  intros st st'.
  assert (H1 : children st !! 2%positive
               = Some {| v_document := uri a_river; v_stderr := one_error |})
    by (by vm_compute).
  assert (H2 : uri b_river <> uri a_river) by (by vm_compute).
  split; [exact H1 |]. split; [exact H2 |].
  pose proof (validation_event_frame st 2 _ (CloseEv (Some 1)) (uri b_river) H1 H2)
    as (Hc & Ht & _).
  split; [exact Hc | exact Ht].
Defined.

(** X13: without an explicit format action the extension never shows a
    popup, whatever the editor and the formatter processes do. *)
Theorem no_popup_without_format_action
    (open_docs : gmap Uri TextDocument) (active : option Uri) (evs : list Event) :
  Forall not_format evs ->
  popups (run (setupDiagnostics open_docs active) evs) = [].
Proof.
  intros Hevs.
  destruct (setupDiagnostics_fields open_docs active) as (_ & Hf & Hp & _).
  destruct (run_formats_popups evs _ Hevs Hf) as [_ ->]. done.
Qed.

Lemma no_popup_without_format_action_witness :
  Forall not_format
    (second_validation ++ [ChildEmits 2 (ErrorEv (u16 "spawn alloy ENOENT"));
                           DidCloseTextDocument (uri a_river)])
  /\ popups (run (setupDiagnostics ∅ (Some (uri a_river)))
               (second_validation
                ++ [ChildEmits 2 (ErrorEv (u16 "spawn alloy ENOENT"));
                    DidCloseTextDocument (uri a_river)])) = [].
Proof.
  assert (H : Forall not_format
    (second_validation ++ [ChildEmits 2 (ErrorEv (u16 "spawn alloy ENOENT"));
                           DidCloseTextDocument (uri a_river)]))
    by (by repeat constructor).
  split; [exact H |].
  exact (no_popup_without_format_action ∅ (Some (uri a_river)) _ H).
Defined.

(** X14: in every state the extension reaches, every published diagnostic
    is an error whose source is [alloy fmt] and whose message stands on
    one line, trimmed and without [<]. *)
Theorem published_diagnostics_shape
    (open_docs : gmap Uri TextDocument) (active : option Uri) (evs : list Event)
    (u : Uri) (ds : list Diagnostic) :
  collection (run (setupDiagnostics open_docs active) evs) !! u = Some ds ->
  Forall alloy_diagnostic ds.
Proof.
  assert (Hgen : forall evs st,
    (forall u ds, collection st !! u = Some ds -> Forall alloy_diagnostic ds) ->
    forall u ds, collection (run st evs) !! u = Some ds ->
                 Forall alloy_diagnostic ds).
  { clear. induction evs as [|e evs IH]; intros st H; [done |].
    simpl. apply IH. by apply step_collection_alloy. }
  apply Hgen. intros u' ds'.
  destruct (setupDiagnostics_fields open_docs active) as (-> & _).
  by rewrite lookup_empty.
Qed.

Lemma published_diagnostics_shape_witness :
  collection (run (setupDiagnostics ∅ None) first_validation) !! uri a_river
    = Some [one_diagnostic]
  /\ Forall alloy_diagnostic [one_diagnostic].
Proof.
  assert (H : collection (run (setupDiagnostics ∅ None) first_validation)
                !! uri a_river = Some [one_diagnostic]) by (by vm_compute).
  split; [exact H |].
  exact (published_diagnostics_shape ∅ None first_validation (uri a_river) _ H).
Defined.

(* ===================================================================== *)
(** ** Ranges of the diagnostics *)
(* ===================================================================== *)

Lemma lineAt_line (d : TextDocument) (z : Z) (txt : JSString) :
  0 <= z -> doc_lines d !! Z.to_nat z = Some txt ->
  Z.min z (lineCount d - 1) = z
  /\ lineAt d (Fin z)
     = Some {| range_start := {| pos_line := Fin z; character := Fin 0 |};
               range_end := {| pos_line := Fin z;
                               character := Fin (Z.of_nat (length txt)) |} |}.
Proof.
  intros Hz Hl. pose proof (lookup_lt_Some _ _ _ Hl) as Hlt.
  unfold lineAt, lineCount. split; [lia |].
  destruct (Z.leb_spec 0 z); [| lia].
  destruct (Z.ltb_spec z (Z.of_nat (length (doc_lines d)))); [| lia].
  cbn. by rewrite Hl.
Qed.

(** X15: an error reported inside the document, at a column that is not
    beyond the end of its line, gets the range from the reported position
    to the end of that line. *)
Theorem diagnostic_range_in_document (d : TextDocument) (e : PositionedError)
    (l c : Z) (txt : JSString) :
  line e = Fin l -> col e = Fin c ->
  0 <= l -> doc_lines d !! Z.to_nat l = Some txt ->
  c <= Z.of_nat (length txt) ->
  range (diagnostic_of d e)
  = {| range_start := {| pos_line := Fin l; character := Fin c |};
       range_end := {| pos_line := Fin l;
                       character := Fin (Z.of_nat (length txt)) |} |}.
Proof.
  intros Hl Hc Hl0 Htxt Hlen. unfold diagnostic_of. cbn [range].
  rewrite Hl, Hc. cbn [Math_min].
  destruct (lineAt_line d l txt Hl0 Htxt) as [-> ->]. cbn [range_end].
  unfold new_Range, isBefore. cbn.
  rewrite Z.ltb_irrefl.
  destruct (Z.ltb_spec c (Z.of_nat (length txt))); [done |].
  by replace (Z.of_nat (length txt)) with c by lia.
Qed.

Lemma diagnostic_range_in_document_witness :
  let e := {| line := Fin 1; col := Fin 4; message := u16 "expected expression" |} in
  line e = Fin 1 /\ col e = Fin 4 /\ 0 <= 1
  /\ doc_lines a_river !! Z.to_nat 1 = Some (u16 "b = ")
  /\ 4 <= Z.of_nat (length (u16 "b = "))
  /\ range (diagnostic_of a_river e) = range one_diagnostic.
Proof.
  intros e.
  assert (H1 : line e = Fin 1) by done.
  assert (H2 : col e = Fin 4) by done.
  assert (H3 : 0 <= 1) by lia.
  assert (H4 : doc_lines a_river !! Z.to_nat 1 = Some (u16 "b = "))
    by (by vm_compute).
  assert (H5 : 4 <= Z.of_nat (length (u16 "b = "))) by (by vm_compute).
  split; [exact H1 |]. split; [exact H2 |]. split; [exact H3 |].
  split; [exact H4 |]. split; [exact H5 |].
  exact (diagnostic_range_in_document a_river e 1 4 _ H1 H2 H3 H4 H5).
Defined.

(** X16: an error reported on a line beyond the end of the document is
    attached to the last line: [Math.min] clamps the line looked up, and
    the range runs between the end of the last line and the reported
    position. *)
Theorem diagnostic_range_beyond_document (d : TextDocument) (e : PositionedError)
    (l c : Z) :
  line e = Fin l -> col e = Fin c -> lineCount d <= l ->
  range (diagnostic_of d e)
  = {| range_start := range_end (full_range d);
       range_end := {| pos_line := Fin l; character := Fin c |} |}.
Proof.
  intros Hl Hc Hlen. unfold diagnostic_of. cbn [range].
  rewrite Hl, Hc. cbn [Math_min].
  rewrite Z.min_r by lia.
  destruct (lineAt_last d) as (r & -> & ->).
  unfold new_Range, isBefore, full_range. cbn.
  destruct (Z.ltb_spec l (lineCount d - 1)); [lia |].
  destruct (Z.ltb_spec (lineCount d - 1) l); [done | lia].
Qed.

Lemma diagnostic_range_beyond_document_witness :
  line far_error = Fin 8 /\ col far_error = Fin 0 /\ lineCount a_river <= 8
  /\ range (diagnostic_of a_river far_error)
     = {| range_start := {| pos_line := Fin 1; character := Fin 4 |};
          range_end := {| pos_line := Fin 8; character := Fin 0 |} |}.
Proof.
  assert (H1 : line far_error = Fin 8) by done.
  assert (H2 : col far_error = Fin 0) by done.
  assert (H3 : lineCount a_river <= 8) by (by vm_compute).
  split; [exact H1 |]. split; [exact H2 |]. split; [exact H3 |].
  exact (diagnostic_range_beyond_document a_river far_error 8 0 H1 H2 H3).
Defined.

(* ===================================================================== *)
(** ** More about the timers *)
(* ===================================================================== *)

Section TimersMore.

Implicit Types (st : State) (u doc : Uri).

Lemma run_app st evs1 evs2 : run st (evs1 ++ evs2) = run (run st evs1) evs2.
Proof. unfold run. apply fold_left_app. Qed.

Lemma scheduleValidate_armed doc delay st :
  timers_consistent st -> timers_armed st ->
  timers_armed (scheduleValidate doc delay st).
Proof.
  intros [H1 H2] Ha key h. unfold scheduleValidate, uri_toString.
  assert (Hother : key <> doc -> timers st !! key = Some h ->
            exists cb, timeouts st !! h = Some cb /\ t_key cb = key
                       /\ h <> next_timeout st
                       /\ (forall old, timers st !! doc = Some old -> h <> old)).
  { intros Hne Hk. destruct (Ha _ _ Hk) as (cb & Hcb & Hkey).
    exists cb. repeat split; try done.
    - pose proof (H2 _ _ Hk). lia.
    - intros old Hold ->. destruct (Ha _ _ Hold) as (cb' & Hcb' & Hkey').
      congruence. }
  destruct (timers st !! doc) as [old|] eqn:Eold; cbn;
    (destruct (decide (key = doc)) as [-> | Hne];
     [rewrite lookup_insert_eq; intros [= <-]; eexists;
      by rewrite lookup_insert_eq
     | rewrite lookup_insert_ne by done; intros Hk;
       destruct (Hother Hne Hk) as (cb & Hcb & Hkey & Hnext & Hold);
       exists cb; split; [| done];
       rewrite lookup_insert_ne by done]).
  - rewrite lookup_delete_ne; [done |]. intros ->. by eapply Hold.
  - done.
Qed.

Lemma on_close_document_armed doc st :
  timers_armed st -> timers_armed (on_close_document doc st).
Proof.
  intros Ha key h. unfold on_close_document, uri_toString.
  cbn [timers with_collection].
  assert (Hother : key <> doc -> timers st !! key = Some h ->
            exists cb, timeouts st !! h = Some cb /\ t_key cb = key
                       /\ (forall old, timers st !! doc = Some old -> h <> old)).
  { intros Hne Hk. destruct (Ha _ _ Hk) as (cb & Hcb & Hkey).
    exists cb. repeat split; try done.
    intros old Hold ->. destruct (Ha _ _ Hold) as (cb' & Hcb' & Hkey').
    congruence. }
  destruct (timers st !! doc) as [old|] eqn:Eold; cbn;
    (destruct (decide (key = doc)) as [-> | Hne];
     [by rewrite lookup_delete_eq
     | rewrite lookup_delete_ne by done; intros Hk;
       destruct (Hother Hne Hk) as (cb & Hcb & Hkey & Hold);
       exists cb; split; [| done]]).
  - rewrite lookup_delete_ne; [done |]. intros ->. by eapply Hold.
  - done.
Qed.

Lemma step_armed st e :
  timers_consistent st -> timers_armed st -> timers_armed (step st e).
Proof.
  intros Hc Ha.
  destruct e as [d | d | doc | [doc|] | doc | h w | pid ev | doc w];
    cbn [step]; try done.
  - by apply scheduleValidate_armed.
  - by apply scheduleValidate_armed.
  - by apply scheduleValidate_armed.
  - by apply scheduleValidate_armed.
  - by apply on_close_document_armed.
  - destruct (timeouts st !! h) as [cb|] eqn:E; [| done].
    unfold timeout_callback, timers_armed.
    destruct (validate_timers w (t_document cb)
                (with_timers (delete (t_key cb)) (with_timeouts (delete h) st)))
      as (-> & -> & _). cbn.
    intros key h'. destruct (decide (key = t_key cb)) as [-> | Hne];
      [by rewrite lookup_delete_eq |].
    rewrite lookup_delete_ne by done. intros Hk.
    destruct (Ha _ _ Hk) as (cb' & Hcb' & Hkey). exists cb'. split; [| done].
    rewrite lookup_delete_ne; [done |]. intros ->. congruence.
  - destruct (children st !! pid) as [v|].
    + unfold timers_armed.
      by destruct (validate_on_timers pid v ev st) as (-> & -> & _).
    + destruct (formats st !! pid) as [p|]; [| done].
      unfold timers_armed.
      by destruct (format_on_fields pid p ev st) as (-> & -> & _).
  - unfold timers_armed.
    by destruct (provide_fields w doc st) as (-> & -> & _).
Qed.

Lemma run_armed evs : forall st,
  timers_consistent st -> timers_armed st -> timers_armed (run st evs).
Proof.
  induction evs as [|e evs IH]; intros st Hc Ha; [done |].
  apply IH; [by apply step_consistent | by apply step_armed].
Qed.

Lemma setupDiagnostics_armed open_docs active :
  timers_armed (setupDiagnostics open_docs active).
Proof.
  unfold setupDiagnostics. destruct active as [doc|].
  - apply scheduleValidate_armed; [by split |].
    intros key h. cbn. by rewrite lookup_empty.
  - intros key h. cbn. by rewrite lookup_empty.
Qed.

Lemma on_close_document_idem doc st :
  on_close_document doc (on_close_document doc st) = on_close_document doc st.
Proof.
  unfold on_close_document, uri_toString. cbn [timers with_collection].
  destruct (timers st !! doc) as [old|] eqn:E; cbn;
    rewrite lookup_delete_eq; cbn;
    unfold with_timers, with_collection, clearTimeout, with_timeouts; cbn;
    by rewrite !delete_delete_eq.
Qed.

End TimersMore.

(** X17: in every state the extension reaches, the [timers] map is the
    exact index of the armed timeouts: it maps a key to a handle exactly
    when the timeout of that handle is armed for that key.  No entry
    outlives its timeout and no armed timeout is missing from the map. *)
Theorem timers_index_armed_timeouts
    (open_docs : gmap Uri TextDocument) (active : option Uri) (evs : list Event)
    (key : JSString) (h : positive) :
  let st := run (setupDiagnostics open_docs active) evs in
  timers st !! key = Some h
  <-> exists cb, timeouts st !! h = Some cb /\ t_key cb = key.
Proof.
  intros st.
  assert (Hc : timers_consistent st)
    by apply run_consistent, setupDiagnostics_consistent.
  assert (Ha : timers_armed st).
  { apply run_armed; [apply setupDiagnostics_consistent
                     | apply setupDiagnostics_armed]. }
  split; [apply Ha |].
  intros (cb & Hcb & <-). by apply Hc.
Qed.

(** X18: a burst of changes to one document leaves exactly one armed
    timeout for it, the one of the last change, with the delay of 250 ms. *)
Theorem burst_of_changes_one_timer
    (open_docs : gmap Uri TextDocument) (active : option Uri) (evs : list Event)
    (u : Uri) (burst : list TextDocument) :
  burst <> [] ->
  Forall (fun d => uri d = u) burst ->
  let st' := run (run (setupDiagnostics open_docs active) evs)
               (map DidChangeTextDocument burst) in
  exists h,
    timers st' !! uri_toString u = Some h
    /\ timeouts st' !! h
       = Some {| t_key := uri_toString u; t_document := u; t_delay := 250 |}
    /\ (forall h' cb, timeouts st' !! h' = Some cb -> t_document cb = u -> h' = h).
Proof.
  intros Hne Hu st'.
  destruct (exists_last Hne) as (ds & d & ->).
  apply Forall_app in Hu as [_ Hd]. apply Forall_cons in Hd as [Hd _].
  subst st'. rewrite map_app, run_app. cbn [map run fold_left step].
  set (st1 := run (run (setupDiagnostics open_docs active) evs)
                (map DidChangeTextDocument ds)).
  assert (Hc1 : timers_consistent st1).
  { subst st1. rewrite <- run_app.
    apply run_consistent, setupDiagnostics_consistent. }
  fold (run st1 []). cbn [run fold_left].
  set (st2 := with_docs (insert (uri d) d) st1).
  assert (Hc2 : timers_consistent (scheduleValidate (uri d) 250 st2))
    by (by apply scheduleValidate_consistent).
  rewrite Hd in *.
  assert (Hnew : timers (scheduleValidate u 250 st2) !! uri_toString u
                 = Some (next_timeout st2)
                 /\ timeouts (scheduleValidate u 250 st2) !! next_timeout st2
                    = Some {| t_key := uri_toString u; t_document := u;
                              t_delay := 250 |}).
  { unfold scheduleValidate, uri_toString.
    destruct (timers st2 !! u); cbn; by rewrite !lookup_insert_eq. }
  destruct Hnew as [Ht Hto].
  exists (next_timeout st2). split; [exact Ht |]. split; [exact Hto |].
  intros h' cb Hcb Hdoc.
  by apply (consistent_at_most_one _ Hc2 h' (next_timeout st2) cb _ Hcb Hto).
Qed.

Lemma burst_of_changes_one_timer_witness :
  let burst := [a_river; a_river; a_river] in
  let st' := run (run (setupDiagnostics ∅ None) first_validation)
               (map DidChangeTextDocument burst) in
  burst <> []
  /\ Forall (fun d => uri d = uri a_river) burst
  /\ exists h, timers st' !! uri_toString (uri a_river) = Some h
               /\ forall h' cb, timeouts st' !! h' = Some cb ->
                                t_document cb = uri a_river -> h' = h.
Proof.
  intros burst st'.
  assert (H1 : burst <> []) by done.
  assert (H2 : Forall (fun d => uri d = uri a_river) burst)
    by (by repeat constructor).
  split; [exact H1 |]. split; [exact H2 |].
  destruct (burst_of_changes_one_timer ∅ None first_validation (uri a_river)
              burst H1 H2) as (h & Ht & _ & Hu).
  exists h. split; [exact Ht | exact Hu].
Defined.

(** X19: closing a document touches nothing of the other documents: their
    diagnostics, their timers and their armed timeouts stay; it ends no
    process, whether a validation or a format action; and closing the
    document a second time changes nothing more. *)
Theorem close_document_frame
    (open_docs : gmap Uri TextDocument) (active : option Uri) (evs : list Event)
    (doc u : Uri) :
  u <> doc ->
  let st := run (setupDiagnostics open_docs active) evs in
  let st' := step st (DidCloseTextDocument doc) in
  collection st' !! u = collection st !! u
  /\ timers st' !! uri_toString u = timers st !! uri_toString u
  /\ (forall h cb, timeouts st !! h = Some cb -> t_document cb <> doc ->
                   timeouts st' !! h = Some cb)
  /\ children st' = children st /\ formats st' = formats st
  /\ step st' (DidCloseTextDocument doc) = st'.
Proof.
  intros Hu st st'.
  assert (Hc : timers_consistent st)
    by apply run_consistent, setupDiagnostics_consistent.
  assert (Ha : timers_armed st).
  { apply run_armed; [apply setupDiagnostics_consistent
                     | apply setupDiagnostics_armed]. }
  subst st'. cbn [step].
  destruct (on_close_document_other_fields doc st) as (-> & -> & _).
  repeat split; try apply on_close_document_idem;
    unfold on_close_document, uri_toString; cbn [timers with_collection].
  - destruct (timers st !! doc); cbn; by rewrite lookup_delete_ne.
  - destruct (timers st !! doc); cbn; by rewrite lookup_delete_ne.
  - intros h cb Hcb Hdoc.
    destruct (timers st !! doc) as [old|] eqn:E; cbn; [| done].
    rewrite lookup_delete_ne; [done |]. intros Heq. subst old.
    destruct (Ha _ _ E) as (cb' & Hcb' & Hkey').
    destruct Hc as [H1 _]. destruct (H1 _ _ Hcb) as [_ Hk].
    unfold uri_toString in Hk. congruence.
Qed.

Lemma close_document_frame_witness :
  let evs := first_validation ++ [DidOpenTextDocument b_river] in
  let st := run (setupDiagnostics ∅ None) evs in
  let st' := step st (DidCloseTextDocument (uri b_river)) in
  uri a_river <> uri b_river
  /\ collection st' !! uri a_river = Some [one_diagnostic]
  /\ step st' (DidCloseTextDocument (uri b_river)) = st'.
Proof.
  intros evs st st'.
  assert (H : uri a_river <> uri b_river) by (by vm_compute).
  split; [exact H |].
  pose proof (close_document_frame ∅ None evs (uri b_river) (uri a_river) H)
    as (Hc & _ & _ & _ & _ & Hidem).
  split; [| exact Hidem].
  etrans; [exact Hc | by vm_compute].
Defined.

(* ===================================================================== *)
(** ** More about the processes and the format action *)
(* ===================================================================== *)

Section ProcessesMore.

Implicit Types (st : State) (u doc : Uri).

Lemma settle_pids doc original c st :
  let st' := (settle doc original c st).2 in
  formats st' = formats st /\ next_pid st' = next_pid st.
Proof.
  unfold settle. destruct (docs st !! doc); [| done].
  by destruct (format_outcome _ _ _) as [[? ?]|].
Qed.

Lemma validate_children w doc st :
  (children (validate w doc st) = children st
   /\ next_pid (validate w doc st) = next_pid st)
  \/ (children (validate w doc st)
      = <[next_pid st := {| v_document := doc; v_stderr := [] |}]> (children st)
      /\ next_pid (validate w doc st) = Pos.succ (next_pid st)).
Proof.
  unfold validate. destruct (docs st !! doc); [| by left].
  case_decide; [| by left]. right. by destruct w.
Qed.

Lemma validate_on_children pid v ev st :
  next_pid (validate_on pid v ev st) = next_pid st
  /\ (children (validate_on pid v ev st) = children st
      \/ (exists v', children (validate_on pid v ev st)
                     = <[pid := v']> (children st))
      \/ children (validate_on pid v ev st) = delete pid (children st)).
Proof.
  destruct ev as [c | c | m | code]; cbn [validate_on].
  - split; [done | by left].
  - split; [done |]. right. left. by eexists.
  - split; [done | by left].
  - unfold validate_on_close.
    destruct code as [[| |]|]; try destruct (parseAlloyErrors _);
      cbn [docs with_children]; try destruct (docs st !! _);
      (split; [done |]); right; right; done.
Qed.

Lemma format_on_formats pid p ev st :
  next_pid (format_on pid p ev st) = next_pid st
  /\ exists p', formats (format_on pid p ev st) = <[pid := p']> (formats st)
                /\ p_document p' = p_document p /\ p_original p' = p_original p.
Proof.
  unfold format_on. destruct (f_promise (p_call p)).
  - pose proof (settle_pids (p_document p) (p_original p)
                  (runAlloyFmt_on ev (p_call p)) st) as [Hf Hn].
    destruct (settle _ _ _ st) as [edits st1]. cbn in *.
    rewrite Hf, Hn. split; [done |]. by eexists.
  - split; [done |]. by eexists.
  - split; [done |]. by eexists.
Qed.

Lemma provide_formats w doc st d :
  docs st !! doc = Some d ->
  next_pid (provideDocumentFormattingEdits w doc st) = Pos.succ (next_pid st)
  /\ exists p, formats (provideDocumentFormattingEdits w doc st)
               = <[next_pid st := p]> (formats st)
               /\ p_document p = doc /\ p_original p = getText d
               /\ p_call p = runAlloyFmt w.
Proof.
  intros Hd. unfold provideDocumentFormattingEdits. rewrite Hd. cbn [spawn].
  match goal with |- context [settle ?a ?b ?c ?s] =>
    pose proof (settle_pids a b c s) as [Hf Hn];
    destruct (settle a b c s) as [e s1]
  end.
  cbn in *. rewrite Hf, Hn. split; [done |]. by eexists.
Qed.

Lemma step_pids_fresh st e : pids_fresh st -> pids_fresh (step st e).
Proof.
  intros [Hc Hf].
  assert (Hsched : forall doc delay st0,
            children st0 = children st -> formats st0 = formats st ->
            next_pid st0 = next_pid st ->
            pids_fresh (scheduleValidate doc delay st0)).
  { intros doc delay st0 E1 E2 E3. unfold pids_fresh.
    destruct (scheduleValidate_other_fields doc delay st0)
      as (_ & -> & -> & _ & _ & ->).
    rewrite E1, E2, E3. by split. }
  destruct e as [d | d | doc | [doc|] | doc | h w | pid ev | doc w];
    cbn [step]; try (by apply Hsched); try done.
  - unfold pids_fresh.
    destruct (on_close_document_other_fields doc st) as (-> & -> & _ & _ & ->).
    by split.
  - destruct (timeouts st !! h) as [cb|]; [| done]. unfold timeout_callback.
    set (st0 := with_timers (delete (t_key cb)) (with_timeouts (delete h) st)).
    unfold pids_fresh.
    destruct (validate_other_fields w (t_document cb) st0) as [-> _].
    destruct (validate_children w (t_document cb) st0) as [[-> ->] | [-> ->]];
      cbn; [by split |].
    split.
    + intros pid v. destruct (decide (pid = next_pid st)) as [-> | Hne].
      * intros _. split; [lia |].
        destruct (formats st !! next_pid st) eqn:E; [| done].
        apply Hf in E. lia.
      * rewrite lookup_insert_ne by done. intros Hv.
        destruct (Hc _ _ Hv). split; [lia | done].
    + intros pid p Hp. apply Hf in Hp. lia.
  - destruct (children st !! pid) as [v|] eqn:Ev.
    + unfold pids_fresh.
      destruct (validate_on_other_fields pid v ev st) as [-> _].
      destruct (validate_on_children pid v ev st) as [-> Hch].
      split; [| done]. intros pid' v'.
      destruct Hch as [-> | [[v0 ->] | ->]]; [apply Hc | |].
      * destruct (decide (pid' = pid)) as [-> | Hne];
          [intros _; by eapply Hc
          | rewrite lookup_insert_ne by done; apply Hc].
      * intros [_ Hv']%lookup_delete_Some. by eapply Hc.
    + destruct (formats st !! pid) as [p|] eqn:Ep; [| done].
      unfold pids_fresh.
      destruct (format_on_fields pid p ev st) as (_ & _ & _ & _ & ->).
      destruct (format_on_formats pid p ev st) as (-> & p' & -> & _).
      split.
      * intros pid' v' Hv'. destruct (Hc _ _ Hv') as [? ?]. split; [done |].
        rewrite lookup_insert_ne; [done |]. intros ->. congruence.
      * intros pid' p0. destruct (decide (pid' = pid)) as [-> | Hne];
          [intros _; by eapply Hf
          | rewrite lookup_insert_ne by done; apply Hf].
  - destruct (docs st !! doc) as [d|] eqn:Ed.
    + unfold pids_fresh.
      destruct (provide_fields w doc st) as (_ & _ & _ & _ & ->).
      destruct (provide_formats w doc st d Ed) as (-> & p & -> & _).
      split.
      * intros pid v Hv. destruct (Hc _ _ Hv) as [? ?]. split; [lia |].
        rewrite lookup_insert_ne; [done | lia].
      * intros pid p0. destruct (decide (pid = next_pid st)) as [-> | Hne];
          [intros _; lia |].
        rewrite lookup_insert_ne by done. intros Hp%Hf. lia.
    + unfold provideDocumentFormattingEdits. by rewrite Ed.
Qed.

Lemma run_pids_fresh evs : forall st, pids_fresh st -> pids_fresh (run st evs).
Proof.
  induction evs as [|e evs IH]; intros st H; [done |].
  apply IH. by apply step_pids_fresh.
Qed.

Lemma setupDiagnostics_pids_fresh open_docs active :
  pids_fresh (setupDiagnostics open_docs active).
Proof.
  destruct (setupDiagnostics_fields open_docs active) as (_ & Hf & _ & Hc).
  unfold pids_fresh. rewrite Hf, Hc. split; intros ? ?; by rewrite lookup_empty.
Qed.

Lemma runAlloyFmt_on_settled ev c :
  f_promise c <> Pending -> f_promise (runAlloyFmt_on ev c) = f_promise c.
Proof.
  intros H. destruct ev as [| | m | [[| |]|]]; simpl; by destruct (f_promise c).
Qed.

End ProcessesMore.

(** X20: process identifiers are never reused.  In every state the
    extension reaches, a process is either a validation or a format action,
    never both, and starting a new validation or a new format action never
    replaces the record of a process that is still known. *)
Theorem processes_never_replaced
    (open_docs : gmap Uri TextDocument) (active : option Uri) (evs : list Event)
    (pid h : positive) (w : bool) (doc : Uri) (write_error : option JSString) :
  let st := run (setupDiagnostics open_docs active) evs in
  (forall v, children st !! pid = Some v ->
     formats st !! pid = None
     /\ children (step st (TimeoutFires h w)) !! pid = Some v)
  /\ (forall p, formats st !! pid = Some p ->
        children st !! pid = None
        /\ formats (step st (FormatDocument doc write_error)) !! pid = Some p).
Proof.
  intros st.
  assert (Hfresh : pids_fresh st)
    by apply run_pids_fresh, setupDiagnostics_pids_fresh.
  destruct Hfresh as [Hc Hf]. split.
  - intros v Hv. destruct (Hc _ _ Hv) as [Hlt Hnone]. split; [done |].
    cbn [step]. destruct (timeouts st !! h) as [cb|]; [| done].
    unfold timeout_callback.
    destruct (validate_children w (t_document cb)
                (with_timers (delete (t_key cb)) (with_timeouts (delete h) st)))
      as [[-> _] | [-> _]]; cbn; [done |].
    rewrite lookup_insert_ne; [done | lia].
  - intros p Hp. pose proof (Hf _ _ Hp) as Hlt. split.
    + destruct (children st !! pid) as [v|] eqn:E; [| done].
      destruct (Hc _ _ E). congruence.
    + cbn [step]. destruct (docs st !! doc) as [d|] eqn:Ed.
      * destruct (provide_formats write_error doc st d Ed) as (_ & p0 & -> & _).
        rewrite lookup_insert_ne; [done | lia].
      * unfold provideDocumentFormattingEdits. by rewrite Ed.
Qed.

Lemma processes_never_replaced_witness :
  let st := run (setupDiagnostics ∅ None) second_validation in
  let v := {| v_document := uri a_river; v_stderr := [] |} in
  children st !! 2%positive = Some v
  /\ children (step st (TimeoutFires 9 true)) !! 2%positive = Some v
  /\ formats st !! 2%positive = None.
Proof.
  intros st v.
  assert (H : children st !! 2%positive = Some v) by (by vm_compute).
  split; [exact H |].
  destruct (proj1 (processes_never_replaced ∅ None second_validation 2 9 true
                     (uri a_river) None) v H) as [Hn Hk].
  split; [exact Hk | exact Hn].
Defined.

(** X21: an explicit format request is not debounced and is independent of
    the validator: it starts its process at once, under a fresh
    identifier, with the text the document has at that moment, and leaves
    the diagnostics, the timers and the validations in flight as they
    are. *)
Theorem format_request_independent (st : State) (doc : Uri) (d : TextDocument)
    (write_error : option JSString) :
  docs st !! doc = Some d ->
  let st' := step st (FormatDocument doc write_error) in
  collection st' = collection st /\ timers st' = timers st
  /\ timeouts st' = timeouts st /\ children st' = children st
  /\ next_pid st' = Pos.succ (next_pid st)
  /\ exists p, formats st' = <[next_pid st := p]> (formats st)
               /\ p_document p = doc /\ p_original p = getText d
               /\ p_call p = runAlloyFmt write_error.
Proof.
  intros Hd st'. subst st'. cbn [step].
  destruct (provide_fields write_error doc st) as (-> & -> & _ & -> & ->).
  destruct (provide_formats write_error doc st d Hd) as (-> & Hp).
  by repeat split.
Qed.

Lemma format_request_independent_witness :
  let st := run (setupDiagnostics ∅ None) second_validation in
  let st' := step st (FormatDocument (uri a_river) None) in
  docs st !! uri a_river = Some a_river
  /\ collection st' = collection st /\ children st' = children st
  /\ next_pid st' = 4%positive.
Proof.
  intros st st'.
  assert (H : docs st !! uri a_river = Some a_river) by (by vm_compute).
  split; [exact H |].
  pose proof (format_request_independent st (uri a_river) a_river None H)
    as (Hc & _ & _ & Hch & Hn & _).
  split; [exact Hc |]. split; [exact Hch |].
  etrans; [exact Hn | by vm_compute].
Defined.

(** X22: a format action settles once: after its promise is resolved or
    rejected, no event of its process changes the edits it resolved to, nor
    shows a popup. *)
Theorem format_action_settles_once (st : State) (pid : positive)
    (p : Formatting) (ev : ChildEvent) :
  children st !! pid = None ->
  formats st !! pid = Some p ->
  f_promise (p_call p) <> Pending ->
  let st' := step st (ChildEmits pid ev) in
  popups st' = popups st
  /\ exists p', formats st' !! pid = Some p'
                /\ p_edits p' = p_edits p
                /\ f_promise (p_call p') = f_promise (p_call p).
Proof.
  intros Hc Hp Hs st'. subst st'. cbn [step]. rewrite Hc, Hp.
  unfold format_on. pose proof (runAlloyFmt_on_settled ev _ Hs) as Hon.
  destruct (f_promise (p_call p)) eqn:E; [done | |];
    (split; [done |]); eexists; cbn; rewrite lookup_insert_eq;
    (split; [done |]); cbn; by rewrite Hon.
Qed.

Lemma format_action_settles_once_witness :
  let st := run (setupDiagnostics ∅ None)
              (format_requested ++ [ChildEmits 1 (ErrorEv (u16 "spawn alloy ENOENT"))]) in
  let p := {| p_document := uri a_river; p_original := getText a_river;
              p_call := {| f_stdout := []; f_stderr := [];
                           f_promise := Rejected (start_failure
                                                    (u16 "spawn alloy ENOENT")) |};
              p_edits := Some [] |} in
  let st' := step st (ChildEmits 1 (CloseEv (Some (-2)))) in
  children st !! 1%positive = None
  /\ formats st !! 1%positive = Some p
  /\ f_promise (p_call p) <> Pending
  /\ length (popups st) = 1%nat
  /\ popups st' = popups st.
Proof.
  intros st p st'.
  assert (H1 : children st !! 1%positive = None) by (by vm_compute).
  assert (H2 : formats st !! 1%positive = Some p) by (by vm_compute).
  assert (H3 : f_promise (p_call p) <> Pending) by done.
  split; [exact H1 |]. split; [exact H2 |]. split; [exact H3 |].
  split; [by vm_compute |].
  exact (proj1 (format_action_settles_once st 1 p (CloseEv (Some (-2))) H1 H2 H3)).
Defined.

(** X23: when writing the document to the formatter throws during a format
    request, the provider resolves to no edit at once and a popup with the
    failure is shown, unless the message of the exception contains a
    marker [<stdin>:digits:digits:]. *)
Theorem format_request_write_failure (st : State) (doc : Uri)
    (d : TextDocument) (m : JSString) :
  docs st !! doc = Some d ->
  let st' := step st (FormatDocument doc (Some m)) in
  let failure := u16 "Failed to write to formatter: " ++ m in
  popups st'
  = popups st ++ (if test position_re m then [] else [popup_text failure])
  /\ formats st' !! next_pid st
     = Some {| p_document := doc; p_original := getText d;
               p_call := runAlloyFmt (Some m); p_edits := Some [] |}.
Proof.
  intros Hd st' failure. subst st'. cbn [step].
  unfold provideDocumentFormattingEdits. rewrite Hd. cbn [spawn].
  unfold settle. cbn [docs]. rewrite Hd.
  cbn [runAlloyFmt f_promise reject format_outcome].
  rewrite on_failed_popup.
  assert (test position_re (u16 "Failed to write to formatter: " ++ m)
          = test position_re m) as ->.
  { apply test_skip_prefix. repeat constructor; done. }
  split; [done |]. cbn. apply lookup_insert_eq.
Qed.

Lemma format_request_write_failure_witness :
  let st := run (setupDiagnostics ∅ None) [DidOpenTextDocument a_river] in
  docs st !! uri a_river = Some a_river
  /\ popups (step st (FormatDocument (uri a_river) (Some (u16 "write EPIPE"))))
     = [ popup_text (u16 "Failed to write to formatter: write EPIPE") ].
Proof.
  intros st.
  assert (H : docs st !! uri a_river = Some a_river) by (by vm_compute).
  split; [exact H |].
  etrans; [exact (proj1 (format_request_write_failure st (uri a_river) a_river
                           (u16 "write EPIPE") H)) |].
  by vm_compute.
Defined.

(** X24: the provider of [src/unnamed/part_001] and the provider of
    [src/extension.js] resolve to the same edits on every outcome of
    [runAlloyFmt]; they differ in one point only: on a rejection the former
    always shows the failure, the latter only when the message has no
    marker [<stdin>:digits:digits:]. *)
Theorem providers_agree_on_edits (d : TextDocument) (original : JSString)
    (p : Promise JSString) (m : JSString) :
  fst <$> format_outcome d original p = fst <$> format_outcome_v1 d original p
  /\ snd <$> format_outcome_v1 d original (Rejected m) = Some [popup_text m]
  /\ snd <$> format_outcome d original (Rejected m)
     = Some (if test position_re m then [] else [popup_text m])
  /\ (forall formatted,
        format_outcome d original (Resolved formatted)
        = format_outcome_v1 d original (Resolved formatted)).
Proof.
  repeat split.
  - destruct p as [| formatted | msg]; cbn; [done | |].
    + by rewrite on_formatted_edits.
    + by rewrite on_failed_popup.
  - cbn [format_outcome]. by rewrite on_failed_popup.
  - intros formatted. cbn. by rewrite on_formatted_edits.
Qed.

Lemma stderr_chunks_accumulate (pid : positive) (chunks : list JSString) :
  forall (st : State) (v : Validation),
    children st !! pid = Some v ->
    children (run st (stderr_chunks pid chunks)) !! pid
      = Some {| v_document := v_document v;
                v_stderr := v_stderr v ++ concat chunks |}
    /\ docs (run st (stderr_chunks pid chunks)) = docs st
    /\ collection (run st (stderr_chunks pid chunks)) = collection st.
Proof.
  induction chunks as [|c chunks IH]; intros st v Hv.
  - cbn. rewrite app_nil_r. by destruct v.
  - change (run st (stderr_chunks pid (c :: chunks)))
      with (run (step st (ChildEmits pid (StderrData c))) (stderr_chunks pid chunks)).
    assert (Hstep : children (step st (ChildEmits pid (StderrData c))) !! pid
                    = Some {| v_document := v_document v;
                              v_stderr := v_stderr v ++ c |}).
    { cbn [step]. rewrite Hv. cbn. apply lookup_insert_eq. }
    destruct (IH _ _ Hstep) as (-> & -> & ->). cbn [v_document v_stderr].
    rewrite <- app_assoc. cbn [step]. rewrite Hv. by cbn.
Qed.

(** X25: how the output is cut into chunks does not matter: after the
    chunks of [stderr] and an exit with a code other than 0, the
    diagnostics of the document are the errors parsed from the
    concatenation of the chunks, so a record split over two chunks is
    still found. *)
Theorem validation_chunks_concatenated (st : State) (pid : positive)
    (v : Validation) (d : TextDocument) (chunks : list JSString)
    (code : option Z) :
  children st !! pid = Some v ->
  docs st !! v_document v = Some d ->
  code <> Some 0 ->
  collection (run st (stderr_chunks pid chunks ++ [ChildEmits pid (CloseEv code)]))
    !! v_document v
  = Some (map (diagnostic_of d)
            (parseAlloyErrors (v_stderr v ++ concat chunks))).
Proof.
  intros Hv Hd Hcode.
  destruct (stderr_chunks_accumulate pid chunks st v Hv) as (Hch & Hdocs & _).
  rewrite run_app. set (st1 := run st (stderr_chunks pid chunks)) in *.
  cbn [run fold_left step]. rewrite Hch. cbn [validate_on v_document v_stderr].
  unfold validate_on_close.
  destruct code as [[| |]|]; try done;
    (destruct (parseAlloyErrors (v_stderr v ++ concat chunks)) as [|e l];
     [cbn; apply lookup_insert_eq |]);
    cbn [docs with_children]; rewrite Hdocs, Hd; cbn; apply lookup_insert_eq.
Qed.

Lemma validation_chunks_concatenated_witness :
  let st := run (setupDiagnostics ∅ None) second_validation in
  let v := {| v_document := uri a_river; v_stderr := [] |} in
  children st !! 2%positive = Some v
  /\ docs st !! v_document v = Some a_river
  /\ Some 1 <> Some 0
  /\ collection (run st (stderr_chunks 2 [u16 "<std"; u16 "in>:2:"; u16 "5: expected
 expression"]
                         ++ [ChildEmits 2 (CloseEv (Some 1))]))
       !! uri a_river
     = Some [one_diagnostic].
Proof.
  intros st v.
  assert (H1 : children st !! 2%positive = Some v) by (by vm_compute).
  assert (H2 : docs st !! v_document v = Some a_river) by (by vm_compute).
  assert (H3 : Some 1 <> Some 0) by done.
  split; [exact H1 |]. split; [exact H2 |]. split; [exact H3 |].
  etrans; [exact (validation_chunks_concatenated st 2 v a_river _ (Some 1)
                    H1 H2 H3) |].
  by vm_compute.
Defined.

(* ===================================================================== *)
(** ** The completion of a failed validation *)
(* ===================================================================== *)

Section FailedValidation.

Implicit Types (st : State) (d : TextDocument) (e : PositionedError).

Lemma parsed_nonneg (stderr : JSString) :
  Forall (fun e => nonneg (line e) /\ nonneg (col e)) (parseAlloyErrors stderr).
Proof.
  unfold parseAlloyErrors. destruct stderr; [constructor |].
  apply exec_loop_nonneg. constructor.
Qed.

Lemma new_Range_ends (a b : Position) :
  new_Range a b = {| range_start := a; range_end := b |}
  \/ new_Range a b = {| range_start := b; range_end := a |}.
Proof. unfold new_Range. destruct (isBefore a b); [by left | by right]. Qed.

Lemma lineAt_clamped d l :
  0 <= l ->
  exists txt,
    doc_lines d !! Z.to_nat (Z.min l (lineCount d - 1)) = Some txt
    /\ lineAt d (Math_min (Fin l) (Fin (lineCount d - 1)))
       = Some {| range_start :=
                   {| pos_line := Fin (Z.min l (lineCount d - 1));
                      character := Fin 0 |};
                 range_end :=
                   {| pos_line := Fin (Z.min l (lineCount d - 1));
                      character := Fin (Z.of_nat (length txt)) |} |}.
Proof.
  intros Hl. pose proof (lineCount_pos d) as Hpos. cbn [Math_min].
  set (k := Z.min l (lineCount d - 1)).
  assert (Hk : 0 <= k < lineCount d) by lia.
  destruct (lookup_lt_is_Some_2 (doc_lines d) (Z.to_nat k)) as [txt Htxt].
  { unfold lineCount in Hk. lia. }
  exists txt. split; [done |].
  by destruct (lineAt_line d k txt ltac:(lia) Htxt) as [_ ->].
Qed.

(** The callback of [parsed.map] shows each error it is given. *)
Lemma diagnostic_of_renders d e :
  nonneg (line e) -> renders d e (diagnostic_of d e).
Proof.
  intros Hnn. unfold renders, diagnostic_of. cbn [diag_message severity source range].
  repeat split.
  - match goal with |- context [new_Range ?a ?b] =>
      destruct (new_Range_ends a b) as [-> | ->] end; [by left | by right].
  - intros l Hl. rewrite Hl in Hnn |- *. simpl in Hnn.
    destruct (lineAt_clamped d l Hnn) as (txt & Htxt & ->).
    exists txt. split; [done |]. cbn [range_end].
    unfold reported_position. rewrite Hl. apply new_Range_ends.
Qed.

Lemma map_diagnostic_of_renders d (parsed : list PositionedError) :
  Forall (fun e => nonneg (line e)) parsed ->
  Forall2 (renders d) parsed (map (diagnostic_of d) parsed).
Proof.
  induction 1 as [|e parsed He _ IH]; [constructor |].
  constructor; [by apply diagnostic_of_renders | done].
Qed.

End FailedValidation.

(** C6, as stated, fails in its last part: a validation that exits with a
    code other than 0 and whose [stderr] holds no record leaves exactly the
    state that an exit with code 0 leaves, so the failure is shown as a
    success is. *)
Lemma unknown_failure_reported_as_success :
  let st := run (setupDiagnostics ∅ None)
              (second_validation ++ [ChildEmits 2 (StderrData unknown_failure)]) in
  children st !! 2%positive
    = Some {| v_document := uri a_river; v_stderr := unknown_failure |}
  /\ parseAlloyErrors unknown_failure = []
  /\ collection st !! uri a_river = Some [one_diagnostic]
  /\ step st (ChildEmits 2 (CloseEv (Some 2)))
     = step st (ChildEmits 2 (CloseEv (Some 0))).
Proof. by vm_compute. Qed.

(** C6, amended: when a validation process exits with a code other than
    0, the ['close'] listener parses the accumulated [stderr] (the
    concatenation of the chunks received).  If there is at least one
    record, the diagnostics of the document are replaced by one diagnostic
    per record, in order, each showing its record: same message, severity
    Error, source [alloy fmt], a range between the reported position and
    the end of the reported line.  If there is none, the empty sequence is
    stored, so nothing stale is left; this is the very state an exit with
    code 0 leaves. *)
Theorem validate_exit_nonzero (st : State) (pid : positive) (v : Validation)
    (d : TextDocument) (code : option Z) (chunk : JSString) :
  children st !! pid = Some v ->
  docs st !! v_document v = Some d ->
  code <> Some 0 ->
  let parsed := parseAlloyErrors (v_stderr v) in
  let st' := step st (ChildEmits pid (CloseEv code)) in
  (parsed <> [] ->
   exists published,
     collection st' !! v_document v = Some published
     /\ Forall2 (renders d) parsed published)
  /\ (parsed = [] ->
      collection st' !! v_document v = Some []
      /\ st' = step st (ChildEmits pid (CloseEv (Some 0))))
  /\ children (step st (ChildEmits pid (StderrData chunk))) !! pid
     = Some {| v_document := v_document v; v_stderr := v_stderr v ++ chunk |}.
Proof.
  intros Hv Hd Hcode parsed st'. subst st'. cbn [step]. rewrite Hv.
  cbn [validate_on]. unfold validate_on_close. fold parsed.
  split; [| split].
  - intros Hp. exists (map (diagnostic_of d) parsed). split.
    + destruct code as [[| |]|]; try done;
        (destruct parsed as [|e l] eqn:E; [done |]);
        cbn [docs with_children]; rewrite Hd; cbn; apply lookup_insert_eq.
    + apply map_diagnostic_of_renders.
      eapply Forall_impl; [apply parsed_nonneg |]. by intros e [? _].
  - intros Hnone. split.
    + destruct code as [[| |]|]; try done; rewrite Hnone; cbn;
        apply lookup_insert_eq.
    + destruct code as [[| |]|]; try done; by rewrite Hnone.
  - cbn. apply lookup_insert_eq.
Qed.

Lemma validate_exit_nonzero_witness :
  let st := run (setupDiagnostics ∅ None)
              (second_validation ++ [ChildEmits 2 (StderrData one_error)]) in
  let st' := step st (ChildEmits 2 (CloseEv (Some 2))) in
  let e := {| line := Fin 1; col := Fin 4; message := u16 "expected expression" |} in
  children st !! 2%positive
    = Some {| v_document := uri a_river; v_stderr := one_error |}
  /\ docs st !! uri a_river = Some a_river
  /\ Some 2 <> Some 0
  /\ parseAlloyErrors one_error = [e]
  /\ (exists published,
        collection st' !! uri a_river = Some published
        /\ Forall2 (renders a_river) [e] published)
  /\ collection st' !! uri a_river
     = Some [ {| range :=
                   {| range_start := {| pos_line := Fin 1; character := Fin 4 |};
                      range_end := {| pos_line := Fin 1; character := Fin 4 |} |};
                 diag_message := u16 "expected expression";
                 severity := SevError;
                 source := u16 "alloy fmt" |} ].
Proof.
  intros st st' e.
  assert (H1 : children st !! 2%positive
               = Some {| v_document := uri a_river; v_stderr := one_error |})
    by (by vm_compute).
  assert (H2 : docs st !! uri a_river = Some a_river) by (by vm_compute).
  assert (H3 : Some 2 <> Some 0) by done.
  assert (H4 : parseAlloyErrors one_error = [e]) by (by vm_compute).
  split; [exact H1 |]. split; [exact H2 |]. split; [exact H3 |].
  split; [exact H4 |].
  split; [| by vm_compute].
  apply (proj1 (validate_exit_nonzero st 2 _ a_river (Some 2) [] H1 H2 H3)).
  cbn [v_stderr]. by rewrite H4.
Defined.
